(** * Busca CEP Rápida: the two fetchers and the race in [main]

    A shallow embedding of [main.go] (both copies found in the
    repository) and the properties of its specification.

    - The two fetchers [buscaBrasilAPI] and [buscaViaCEP] are written as
      interaction trees over the calls they make into [net/http] and
      [encoding/json]; a [world] answers those calls.
    - [main] is written in a small instruction set for goroutines
      ([go], buffered channel send, [select], [context] cancellation,
      [log]); a labelled step relation interleaves the goroutines and the
      timer of the context.                                              *)

From stdpp Require Import base list strings pretty.
From Stdlib Require Import ZArith Lia Ascii.

(** ** Strings, errors and [fmt] *)

(** The line feed written ["\n"] in the Go literals. *)
Definition nl : string := String (Ascii.ascii_of_nat 10) "".

(** A non-nil [error] value, seen through its [Error()] text.  A possibly
    nil [error] is an [option error]. *)
Record error := New { Error : string }.

(** Operands of the formatting functions. *)
Inductive arg :=
| AStr (s : string)
| AInt (n : Z)
| AErr (e : error).

(** What [fmt] prints for one operand under one verb.  The program uses
    [%s] on strings, [%d] on an [int] and [%v] on an [error]; for the other
    combinations [fmt] prints a diagnostic [%!verb(type=value)] (for an
    [error] operand the real type name is the dynamic one). *)
Definition bad_verb (verb : Ascii.ascii) (a : arg) : string :=
  "%!" +:+ String verb "" +:+ "(" +:+
  match a with
  | AStr s => "string=" +:+ s
  | AInt n => "int=" +:+ pretty n
  | AErr e => "error=" +:+ Error e
  end +:+ ")".

Definition format_verb (verb : Ascii.ascii) (a : arg) : string :=
  match verb, a with
  | "s"%char, AStr s => s
  | "s"%char, AErr e => Error e
  | "d"%char, AInt n => pretty n
  | "v"%char, AStr s => s
  | "v"%char, AInt n => pretty n
  | "v"%char, AErr e => Error e
  | _, _ => bad_verb verb a
  end.

Fixpoint extra_args (args : list arg) : string :=
  match args with
  | [] => ""
  | [a] =>
      match a with
      | AStr s => "string=" +:+ s
      | AInt n => "int=" +:+ pretty n
      | AErr e => "error=" +:+ Error e
      end
  | a :: rest =>
      match a with
      | AStr s => "string=" +:+ s
      | AInt n => "int=" +:+ pretty n
      | AErr e => "error=" +:+ Error e
      end +:+ ", " +:+ extra_args rest
  end.

(** [fmt.Sprintf]: the format is copied, each verb consumes one operand,
    and an operand is never read as a format again. *)
Definition extra (args : list arg) : string :=
  match args with
  | [] => ""
  | _ => "%!(EXTRA " +:+ extra_args args +:+ ")"
  end.

Fixpoint Sprintf (format : string) (args : list arg) : string :=
  match format with
  | "" => extra args
  | String "%"%char rest =>
      match rest with
      | "" => "%!(NOVERB)" +:+ extra args
      | String "%"%char rest' => String "%"%char (Sprintf rest' args)
      | String verb rest' =>
          match args with
          | [] => "%!" +:+ String verb "" +:+ "(MISSING)" +:+ Sprintf rest' []
          | a :: args' => format_verb verb a +:+ Sprintf rest' args'
          end
      end
  | String c rest => String c (Sprintf rest args)
  end.

(** [fmt.Errorf] *)
Definition Errorf (format : string) (args : list arg) : error :=
  New (Sprintf format args).

(** ** The records of [main.go] *)

(** [type Endereco struct] *)
Record Endereco := mkEndereco {
  CEP : string;
  Logradouro : string;
  Bairro : string;
  Cidade : string;
  UF : string;
  Fonte : string
}.

(** [Endereco{}] *)
Definition Endereco_zero : Endereco := mkEndereco "" "" "" "" "" "".

Module Brasil.
(** [type brasilAPIResponse struct] *)
Record brasilAPIResponse := mk {
  Cep : string;
  State : string;
  City : string;
  Neighborhood : string;
  Street : string
}.
Definition zero : brasilAPIResponse := mk "" "" "" "" "".
End Brasil.

Module Via.
(** [type viaCEPResponse struct] *)
Record viaCEPResponse := mk {
  Cep : string;
  Logradouro : string;
  Bairro : string;
  Localidade : string;
  Uf : string
}.
Definition zero : viaCEPResponse := mk "" "" "" "" "".
End Via.

(** ** The calls into [net/http] and [encoding/json] *)

(** [context.Context] values: the background context and contexts derived
    from a parent by [context.WithTimeout]. *)
Inductive context := Background | Derived (parent : context).

(** [*http.Request] and [*http.Response], as far as the program reads them. *)
Record Request := mkRequest { Method : string; URL : string; Ctx : context }.
Record Response := mkResponse { StatusCode : Z; Body : string }.

Definition MethodGet : string := "GET".
Definition StatusOK : Z := 200%Z.

(** A computation that calls the outside world: the tree of the calls a
    fetcher makes, each with the continuation that receives the answer.
    [Decode] takes the variable the decoder writes into; the decoder may
    have written some fields when it fails. *)
Inductive io (A : Type) : Type :=
| Ret (a : A)
| NewRequestWithContext (ctx : context) (method url : string)
    (k : Request + error -> io A)
| ClientDo (req : Request) (k : Response + error -> io A)
| BodyClose (body : string) (k : io A)
| DecodeBrasil (body : string) (data : Brasil.brasilAPIResponse)
    (k : Brasil.brasilAPIResponse * option error -> io A)
| DecodeVia (body : string) (data : Via.viaCEPResponse)
    (k : Via.viaCEPResponse * option error -> io A).

Arguments Ret {A} a.
Arguments NewRequestWithContext {A} ctx method url k.
Arguments ClientDo {A} req k.
Arguments BodyClose {A} body k.
Arguments DecodeBrasil {A} body data k.
Arguments DecodeVia {A} body data k.

(** The answers of the outside world. *)
Record world := mkWorld {
  w_NewRequestWithContext : context -> string -> string -> Request + error;
  w_Do : Request -> Response + error;
  w_DecodeBrasil : string -> Brasil.brasilAPIResponse ->
                   Brasil.brasilAPIResponse * option error;
  w_DecodeVia : string -> Via.viaCEPResponse ->
                Via.viaCEPResponse * option error
}.

(** Running a computation in a world. *)
Fixpoint interp {A} (w : world) (t : io A) : A :=
  match t with
  | Ret a => a
  | NewRequestWithContext ctx m url k =>
      interp w (k (w_NewRequestWithContext w ctx m url))
  | ClientDo req k => interp w (k (w_Do w req))
  | BodyClose _ k => interp w k
  | DecodeBrasil body data k => interp w (k (w_DecodeBrasil w body data))
  | DecodeVia body data k => interp w (k (w_DecodeVia w body data))
  end.

(** The URLs for which the computation asks a request, in order. *)
Fixpoint requested {A} (w : world) (t : io A) : list string :=
  match t with
  | Ret _ => []
  | NewRequestWithContext ctx m url k =>
      url :: requested w (k (w_NewRequestWithContext w ctx m url))
  | ClientDo req k => requested w (k (w_Do w req))
  | BodyClose _ k => requested w k
  | DecodeBrasil body data k => requested w (k (w_DecodeBrasil w body data))
  | DecodeVia body data k => requested w (k (w_DecodeVia w body data))
  end.

(** The result of a fetcher: [(Endereco, error)]. *)
Definition fetched : Type := Endereco * option error.

(** ** Goroutines, channels and the context *)

(** [log.Println] and [log.Printf] write one entry each; the entry ends in
    a line feed, added when the text does not end in one.  (The date and
    time the logger puts in front are left out.) *)
Fixpoint ends_in_nl (s : string) : bool :=
  match s with
  | "" => false
  | String c "" => Ascii.eqb c (Ascii.ascii_of_nat 10)
  | String _ rest => ends_in_nl rest
  end.

Definition Println (s : string) : string := s +:+ nl.

Definition Printf (format : string) (args : list arg) : string :=
  let s := Sprintf format args in
  if ends_in_nl s then s else s +:+ nl.

(** The statements of a goroutine, each with what follows it.  There is one
    context (made by [WithTimeout], cancelled by [Cancel], its [Done()]
    channel read by [Select]) and there are two channels, [resultChan] and
    [errChan]. *)
Inductive proc : Type :=
| Return
| WithTimeout (parent : context) (d : Z) (k : context -> proc)
| DeferCancel (k : proc)
| MakeResultChan (size : nat) (k : proc)
| MakeErrChan (size : nat) (k : proc)
| Go (body : proc) (k : proc)
| Call (t : io fetched) (k : Endereco -> option error -> proc)
| SendResult (e : Endereco) (k : proc)
| SendErr (err : error) (k : proc)
| Select (onDone : proc) (onResult : Endereco -> proc) (onErr : error -> proc)
| Cancel (k : proc)
| Log (entry : string) (k : proc).

(** [time.Second], a [Duration] in nanoseconds. *)
Definition Second : Z := 1000000000%Z.

Inductive ctx_status := Active | DeadlineExceeded | Canceled.

(** A channel made by [make(chan A, size)]. *)
Record chan (A : Type) := mkChan { buf : list A; cap : nat; closed : bool }.
Arguments mkChan {A} buf cap closed.
Arguments buf {A} c.
Arguments cap {A} c.
Arguments closed {A} c.

(** What the goroutines share.  A channel variable is [None] (a nil
    channel) until its [make]; the context is [None] until [WithTimeout]. *)
Record shared := mkShared {
  sh_ctx : option ctx_status;
  sh_resultChan : option (chan Endereco);
  sh_errChan : option (chan error);
  sh_log : list string
}.

Definition set_ctx (sh : shared) (c : option ctx_status) : shared :=
  mkShared c (sh_resultChan sh) (sh_errChan sh) (sh_log sh).
Definition set_resultChan (sh : shared) (c : option (chan Endereco)) : shared :=
  mkShared (sh_ctx sh) c (sh_errChan sh) (sh_log sh).
Definition set_errChan (sh : shared) (c : option (chan error)) : shared :=
  mkShared (sh_ctx sh) (sh_resultChan sh) c (sh_log sh).
Definition add_log (sh : shared) (entry : string) : shared :=
  mkShared (sh_ctx sh) (sh_resultChan sh) (sh_errChan sh) (sh_log sh ++ [entry]).

(** [cancel()]: the first cause stays. *)
Definition cancel (c : option ctx_status) : option ctx_status :=
  match c with
  | Some Active => Some Canceled
  | _ => c
  end.

(** The three cases of the [select]. *)
Inductive branch :=
| BrDone
| BrResult (e : Endereco)
| BrErr (err : error).

(** What a goroutine does in one step. *)
Inductive act :=
| AWithTimeout (d : Z)
| ADefer
| AMakeResultChan (size : nat)
| AMakeErrChan (size : nat)
| AGo (i : nat)
| ACall (urls : list string) (r : fetched)
| ASendResult (e : Endereco)
| ASendErr (err : error)
| ASelect (br : branch)
| ACancel
| ALog (entry : string)
| AExit (code : Z).

(** One step of one goroutine on the shared state.
    - [WithTimeout] from the background context: a duration that is not
      positive gives a context that is done from the start.
    - A send proceeds when the buffer has room; a case of the [select]
      can be taken when its channel is ready; when several are, any of
      them can be taken.
    - [Call] runs a fetcher to its end in some world. *)
Inductive gstep : shared -> proc -> act -> shared -> proc -> Prop :=
| gs_WithTimeout sh d k :
    gstep sh (WithTimeout Background d k) (AWithTimeout d)
      (set_ctx sh (Some (if (d <=? 0)%Z then DeadlineExceeded else Active)))
      (k (Derived Background))
| gs_MakeResultChan sh n k :
    gstep sh (MakeResultChan n k) (AMakeResultChan n)
      (set_resultChan sh (Some (mkChan [] n false))) k
| gs_MakeErrChan sh n k :
    gstep sh (MakeErrChan n k) (AMakeErrChan n)
      (set_errChan sh (Some (mkChan [] n false))) k
| gs_Call sh t k w :
    gstep sh (Call t k) (ACall (requested w t) (interp w t))
      sh (k (fst (interp w t)) (snd (interp w t)))
| gs_SendResult sh c e k :
    sh_resultChan sh = Some c -> closed c = false ->
    length (buf c) < cap c ->
    gstep sh (SendResult e k) (ASendResult e)
      (set_resultChan sh (Some (mkChan (buf c ++ [e]) (cap c) (closed c)))) k
| gs_SendErr sh c err k :
    sh_errChan sh = Some c -> closed c = false ->
    length (buf c) < cap c ->
    gstep sh (SendErr err k) (ASendErr err)
      (set_errChan sh (Some (mkChan (buf c ++ [err]) (cap c) (closed c)))) k
| gs_Select_done sh st onDone onResult onErr :
    sh_ctx sh = Some st -> st <> Active ->
    gstep sh (Select onDone onResult onErr) (ASelect BrDone) sh onDone
| gs_Select_result sh c e rest onDone onResult onErr :
    sh_resultChan sh = Some c -> buf c = e :: rest ->
    gstep sh (Select onDone onResult onErr) (ASelect (BrResult e))
      (set_resultChan sh (Some (mkChan rest (cap c) (closed c)))) (onResult e)
| gs_Select_err sh c err rest onDone onResult onErr :
    sh_errChan sh = Some c -> buf c = err :: rest ->
    gstep sh (Select onDone onResult onErr) (ASelect (BrErr err))
      (set_errChan sh (Some (mkChan rest (cap c) (closed c)))) (onErr err)
| gs_Cancel sh k :
    gstep sh (Cancel k) ACancel (set_ctx sh (cancel (sh_ctx sh))) k
| gs_Log sh entry k :
    gstep sh (Log entry k) (ALog entry) (add_log sh entry) k.

(** The goroutines: [main] and the ones it started, in the order of their
    [go] statements. *)
Inductive gid := Main | Task (i : nat).

#[global] Instance gid_eq_dec : EqDecision gid.
Proof. solve_decision. Defined.

Inductive deferred := DCancel.

Definition run_deferred (ds : list deferred) (sh : shared) : shared :=
  fold_left (fun sh d => match d with DCancel => set_ctx sh (cancel (sh_ctx sh)) end) ds sh.

(** The process: [st_exit] is the exit status once [main] has returned. *)
Record state := mkState {
  st_main : proc;
  st_defers : list deferred;
  st_pool : list proc;
  st_shared : shared;
  st_exit : option Z
}.

Inductive event :=
| Ev (g : gid) (a : act)
| Deadline.

(** One step of the process.  The timer of the context can fire while the
    context is active.  When [main] returns its deferred calls run and the
    process exits with status 0, whatever the other goroutines were doing;
    a goroutine at its [Return] has ended. *)
Inductive step : state -> event -> state -> Prop :=
| step_main s a sh' p' :
    st_exit s = None ->
    gstep (st_shared s) (st_main s) a sh' p' ->
    step s (Ev Main a) (mkState p' (st_defers s) (st_pool s) sh' None)
| step_task s i p a sh' p' :
    st_exit s = None ->
    st_pool s !! i = Some p ->
    gstep (st_shared s) p a sh' p' ->
    step s (Ev (Task i) a)
      (mkState (st_main s) (st_defers s) (<[i:=p']> (st_pool s)) sh' None)
| step_go s body k :
    st_exit s = None ->
    st_main s = Go body k ->
    step s (Ev Main (AGo (length (st_pool s))))
      (mkState k (st_defers s) (st_pool s ++ [body]) (st_shared s) None)
| step_defer s k :
    st_exit s = None ->
    st_main s = DeferCancel k ->
    step s (Ev Main ADefer)
      (mkState k (DCancel :: st_defers s) (st_pool s) (st_shared s) None)
| step_return s :
    st_exit s = None ->
    st_main s = Return ->
    step s (Ev Main (AExit 0))
      (mkState Return [] (st_pool s) (run_deferred (st_defers s) (st_shared s))
         (Some 0%Z))
| step_deadline s :
    st_exit s = None ->
    sh_ctx (st_shared s) = Some Active ->
    step s Deadline
      (mkState (st_main s) (st_defers s) (st_pool s)
         (set_ctx (st_shared s) (Some DeadlineExceeded)) None).

Definition init (p : proc) : state :=
  mkState p [] [] (mkShared None None None []) None.

(** Executions, with the events in the order they happened. *)
Inductive exec (s0 : state) : list event -> state -> Prop :=
| exec_nil : exec s0 [] s0
| exec_snoc tr s ev s' :
    exec s0 tr s -> step s ev s' -> exec s0 (tr ++ [ev]) s'.

(** What one goroutine did, and the cases the [select] of [main] took. *)
Definition acts_of (g : gid) (tr : list event) : list act :=
  omap (fun ev => match ev with
                  | Ev g' a => if decide (g' = g) then Some a else None
                  | Deadline => None
                  end) tr.

Definition selected (a : act) : option branch :=
  match a with ASelect br => Some br | _ => None end.

Definition outcomes (tr : list event) : list branch :=
  omap selected (acts_of Main tr).

(** ** First copy of the program *)

Module Copy1.

(** [func buscaBrasilAPI(ctx context.Context, cep string) (Endereco, error)] *)
Definition buscaBrasilAPI (ctx : context) (cep : string) : io fetched :=
  let endereco := Endereco_zero in
  let url := Sprintf "https://brasilapi.com.br/api/cep/v1/%s" [AStr cep] in
  NewRequestWithContext ctx MethodGet url (fun r =>
  match r with
  | inr err => Ret (endereco, Some err)
  | inl req =>
  ClientDo req (fun r =>
  match r with
  | inr err => Ret (endereco, Some err)
  | inl resp =>
  (* defer resp.Body.Close() *)
  if negb (StatusCode resp =? StatusOK)%Z then
    BodyClose (Body resp)
      (Ret (endereco,
            Some (Errorf "BrasilAPI retornou status %d" [AInt (StatusCode resp)])))
  else
  DecodeBrasil (Body resp) Brasil.zero (fun '(data, err) =>
  match err with
  | Some err => BodyClose (Body resp) (Ret (endereco, Some err))
  | None =>
  let endereco :=
    {| CEP := Brasil.Cep data;
       Logradouro := Brasil.Street data;
       Bairro := Brasil.Neighborhood data;
       Cidade := Brasil.City data;
       UF := Brasil.State data;
       Fonte := "BrasilAPI" |} in
  BodyClose (Body resp) (Ret (endereco, None))
  end)
  end)
  end).

(** [func buscaViaCEP(ctx context.Context, cep string) (Endereco, error)] *)
Definition buscaViaCEP (ctx : context) (cep : string) : io fetched :=
  let endereco := Endereco_zero in
  let url := Sprintf "http://viacep.com.br/ws/%s/json/" [AStr cep] in
  NewRequestWithContext ctx MethodGet url (fun r =>
  match r with
  | inr err => Ret (endereco, Some err)
  | inl req =>
  ClientDo req (fun r =>
  match r with
  | inr err => Ret (endereco, Some err)
  | inl resp =>
  (* defer resp.Body.Close() *)
  if negb (StatusCode resp =? StatusOK)%Z then
    BodyClose (Body resp)
      (Ret (endereco,
            Some (Errorf "ViaCEP retornou status %d" [AInt (StatusCode resp)])))
  else
  DecodeVia (Body resp) Via.zero (fun '(data, err) =>
  match err with
  | Some err => BodyClose (Body resp) (Ret (endereco, Some err))
  | None =>
  let endereco :=
    {| CEP := Via.Cep data;
       Logradouro := Via.Logradouro data;
       Bairro := Via.Bairro data;
       Cidade := Via.Localidade data;
       UF := Via.Uf data;
       Fonte := "ViaCEP" |} in
  BodyClose (Body resp) (Ret (endereco, None))
  end)
  end)
  end).

(** The goroutine of the first [go] statement. *)
Definition goBrasilAPI (ctx : context) (cep : string) : proc :=
  Call (buscaBrasilAPI ctx cep) (fun end_ err =>
  match err with
  | Some err => SendErr err Return       (* errChan <- err; return *)
  | None => SendResult end_ Return       (* resultChan <- end *)
  end).

(** The goroutine of the second [go] statement. *)
Definition goViaCEP (ctx : context) (cep : string) : proc :=
  Call (buscaViaCEP ctx cep) (fun end_ err =>
  match err with
  | Some err => SendErr err Return
  | None => SendResult end_ Return
  end).

(** [case <-ctx.Done():] *)
Definition onDone : proc :=
  Log (Println "Timeout: Nenhuma resposta recebida em 1 segundo.") Return.

Definition header (end_ : Endereco) : string :=
  Printf ("Resultado recebido da %s:" +:+ nl) [AStr (Fonte end_)].

Definition fields (end_ : Endereco) : string :=
  Printf ("CEP: %s" +:+ nl +:+ "Logradouro: %s" +:+ nl +:+ "Bairro: %s" +:+ nl
          +:+ "Cidade: %s" +:+ nl +:+ "UF: %s" +:+ nl)
    [AStr (CEP end_); AStr (Logradouro end_); AStr (Bairro end_);
     AStr (Cidade end_); AStr (UF end_)].

(** [case end := <-resultChan:] *)
Definition onResult (end_ : Endereco) : proc :=
  Cancel (Log (header end_) (Log (fields end_) Return)).

Definition failure (err : error) : string :=
  Printf ("Erro ao consultar: %v" +:+ nl) [AErr err].

(** [case err := <-errChan:] *)
Definition onErr (err : error) : proc :=
  Cancel (Log (failure err) Return).

(** The body of [main], with its two constants as parameters. *)
Definition main_with (cep : string) (timeout : Z) : proc :=
  WithTimeout Background timeout (fun ctx =>
  DeferCancel (
  MakeResultChan 2 (
  MakeErrChan 2 (
  Go (goBrasilAPI ctx cep) (
  Go (goViaCEP ctx cep) (
  Select onDone onResult onErr)))))).

(** [func main()] *)
Definition cep : string := "06341650".
Definition timeout : Z := (1 * Second)%Z.
Definition main : proc := main_with cep timeout.

End Copy1.


(** ** Second copy of the program

    The second copy declares the same three records, field for field; they
    are the records above. *)

Module Copy2.

(** [func buscaBrasilAPI(ctx context.Context, cep string) (Endereco, error)] *)
Definition buscaBrasilAPI (ctx : context) (cep : string) : io fetched :=
  let endereco := Endereco_zero in
  let url := Sprintf "https://brasilapi.com.br/api/cep/v1/%s" [AStr cep] in
  NewRequestWithContext ctx MethodGet url (fun r =>
  match r with
  | inr err => Ret (endereco, Some err)
  | inl req =>
  ClientDo req (fun r =>
  match r with
  | inr err => Ret (endereco, Some err)
  | inl resp =>
  (* defer resp.Body.Close() *)
  if negb (StatusCode resp =? StatusOK)%Z then
    BodyClose (Body resp)
      (Ret (endereco,
            Some (Errorf "BrasilAPI retornou status %d" [AInt (StatusCode resp)])))
  else
  DecodeBrasil (Body resp) Brasil.zero (fun '(data, err) =>
  match err with
  | Some err => BodyClose (Body resp) (Ret (endereco, Some err))
  | None =>
  let endereco :=
    {| CEP := Brasil.Cep data;
       Logradouro := Brasil.Street data;
       Bairro := Brasil.Neighborhood data;
       Cidade := Brasil.City data;
       UF := Brasil.State data;
       Fonte := "BrasilAPI" |} in
  BodyClose (Body resp) (Ret (endereco, None))
  end)
  end)
  end).

(** [func buscaViaCEP(ctx context.Context, cep string) (Endereco, error)] *)
Definition buscaViaCEP (ctx : context) (cep : string) : io fetched :=
  let endereco := Endereco_zero in
  let url := Sprintf "http://viacep.com.br/ws/%s/json/" [AStr cep] in
  NewRequestWithContext ctx MethodGet url (fun r =>
  match r with
  | inr err => Ret (endereco, Some err)
  | inl req =>
  ClientDo req (fun r =>
  match r with
  | inr err => Ret (endereco, Some err)
  | inl resp =>
  (* defer resp.Body.Close() *)
  if negb (StatusCode resp =? StatusOK)%Z then
    BodyClose (Body resp)
      (Ret (endereco,
            Some (Errorf "ViaCEP retornou status %d" [AInt (StatusCode resp)])))
  else
  DecodeVia (Body resp) Via.zero (fun '(data, err) =>
  match err with
  | Some err => BodyClose (Body resp) (Ret (endereco, Some err))
  | None =>
  let endereco :=
    {| CEP := Via.Cep data;
       Logradouro := Via.Logradouro data;
       Bairro := Via.Bairro data;
       Cidade := Via.Localidade data;
       UF := Via.Uf data;
       Fonte := "ViaCEP" |} in
  BodyClose (Body resp) (Ret (endereco, None))
  end)
  end)
  end).

Definition cep : string := "06341650".
Definition timeout : Z := (1 * Second)%Z.

(** [func main()] *)
Definition main : proc :=
  WithTimeout Background timeout (fun ctx =>
  DeferCancel (
  MakeResultChan 2 (
  MakeErrChan 2 (
  Go (Call (buscaBrasilAPI ctx cep) (fun end_ err =>
      match err with
      | Some err => SendErr err Return
      | None => SendResult end_ Return
      end)) (
  Go (Call (buscaViaCEP ctx cep) (fun end_ err =>
      match err with
      | Some err => SendErr err Return
      | None => SendResult end_ Return
      end)) (
  Select
    (Log (Println "Timeout: Nenhuma resposta recebida em 1 segundo.") Return)
    (fun end_ =>
       Cancel (
       Log (Printf ("Resultado recebido da %s:" +:+ nl) [AStr (Fonte end_)]) (
       Log (Printf ("CEP: %s" +:+ nl +:+ "Logradouro: %s" +:+ nl +:+ "Bairro: %s"
                    +:+ nl +:+ "Cidade: %s" +:+ nl +:+ "UF: %s" +:+ nl)
              [AStr (CEP end_); AStr (Logradouro end_); AStr (Bairro end_);
               AStr (Cidade end_); AStr (UF end_)])
       Return)))
    (fun err =>
       Cancel (Log (Printf ("Erro ao consultar: %v" +:+ nl) [AErr err]) Return)))))))).

End Copy2.

(** ** Sample worlds

    Worlds in which the fetchers are run on concrete answers. *)

(** Every call succeeds. *)
Definition world_ok : world :=
  {| w_NewRequestWithContext ctx m url := inl (mkRequest m url ctx);
     w_Do req := inl (mkResponse 200 "{}");
     w_DecodeBrasil body data :=
       (Brasil.mk "06341-650" "SP" "Barueri" "Vila Flora" "Rua Joao Marcos", None);
     w_DecodeVia body data :=
       (Via.mk "06341-650" "Rua Joao Marcos" "Vila Flora" "Barueri" "SP", None) |}.

(** The providers answer 404. *)
Definition world_404 : world :=
  {| w_NewRequestWithContext ctx m url := inl (mkRequest m url ctx);
     w_Do req := inl (mkResponse 404 "");
     w_DecodeBrasil body data := (data, None);
     w_DecodeVia body data := (data, None) |}.

(** The payload is cut short: the decoder has written one field and fails. *)
Definition world_truncated : world :=
  {| w_NewRequestWithContext ctx m url := inl (mkRequest m url ctx);
     w_Do req := inl (mkResponse 200 "{");
     w_DecodeBrasil body data :=
       (Brasil.mk "06341-650" (Brasil.State data) (Brasil.City data)
          (Brasil.Neighborhood data) (Brasil.Street data),
        Some (New "unexpected EOF"));
     w_DecodeVia body data :=
       (Via.mk "06341-650" (Via.Logradouro data) (Via.Bairro data)
          (Via.Localidade data) (Via.Uf data),
        Some (New "unexpected EOF")) |}.





(** The address the sample providers know. *)
Definition sample_brasil : Endereco :=
  mkEndereco "06341-650" "Rua Joao Marcos" "Vila Flora" "Barueri" "SP" "BrasilAPI".
Definition sample_via : Endereco :=
  mkEndereco "06341-650" "Rua Joao Marcos" "Vila Flora" "Barueri" "SP" "ViaCEP".

(** The URLs of the two providers. *)
Definition brasil_url (cep : string) : string :=
  "https://brasilapi.com.br/api/cep/v1/" +:+ cep.
Definition via_url (cep : string) : string :=
  "http://viacep.com.br/ws/" +:+ cep +:+ "/json/".

(** ** The program points of the first copy

    Every state an execution of [main_with cep d] reaches is the image of a
    small abstract state: the program point of [main], the program point of
    each of the two goroutines, the status of the context and the contents
    of the two buffers. *)

Module Points.
Import Copy1.

(** Where [main] is. *)
Inductive mpc :=
| mWithTimeout | mDefer | mMakeResult | mMakeErr | mGo1 | mGo2 | mSelect
| mDoneLog
| mResCancel (e : Endereco) | mResHeader (e : Endereco) | mResFields (e : Endereco)
| mErrCancel (err : error) | mErrLog (err : error)
| mReturn (br : branch)
| mExited (br : branch).

(** Where a started goroutine is: before its fetcher has returned, before
    its send (with what the fetcher asked and returned), or at its end. *)
Inductive tpc :=
| tCall
| tSend (urls : list string) (r : fetched)
| tDone (urls : list string) (r : fetched).

Record astate := mkA {
  a_pc : mpc;
  a_q1 : tpc;
  a_q2 : tpc;
  a_ctx : ctx_status;
  a_results : list Endereco;
  a_errs : list error
}.

Section Program.
Variable cep : string.
Variable d : Z.

Definition ctx : context := Derived Background.

Definition main_code (pc : mpc) : proc :=
  match pc with
  | mWithTimeout => main_with cep d
  | mDefer =>
      DeferCancel (MakeResultChan 2 (MakeErrChan 2 (Go (goBrasilAPI ctx cep)
        (Go (goViaCEP ctx cep) (Select onDone onResult onErr)))))
  | mMakeResult =>
      MakeResultChan 2 (MakeErrChan 2 (Go (goBrasilAPI ctx cep)
        (Go (goViaCEP ctx cep) (Select onDone onResult onErr))))
  | mMakeErr =>
      MakeErrChan 2 (Go (goBrasilAPI ctx cep)
        (Go (goViaCEP ctx cep) (Select onDone onResult onErr)))
  | mGo1 =>
      Go (goBrasilAPI ctx cep) (Go (goViaCEP ctx cep) (Select onDone onResult onErr))
  | mGo2 => Go (goViaCEP ctx cep) (Select onDone onResult onErr)
  | mSelect => Select onDone onResult onErr
  | mDoneLog => onDone
  | mResCancel e => onResult e
  | mResHeader e => Log (header e) (Log (fields e) Return)
  | mResFields e => Log (fields e) Return
  | mErrCancel err => onErr err
  | mErrLog err => Log (failure err) Return
  | mReturn _ => Return
  | mExited _ => Return
  end.

Definition send_act (r : fetched) : act :=
  match snd r with
  | Some err => ASendErr err
  | None => ASendResult (fst r)
  end.

Definition send_code (r : fetched) : proc :=
  match snd r with
  | Some err => SendErr err Return
  | None => SendResult (fst r) Return
  end.

Definition task_code (start : proc) (q : tpc) : proc :=
  match q with
  | tCall => start
  | tSend _ r => send_code r
  | tDone _ _ => Return
  end.

(** How many goroutines [main] has started. *)
Definition spawned (pc : mpc) : nat :=
  match pc with
  | mWithTimeout | mDefer | mMakeResult | mMakeErr | mGo1 => 0
  | mGo2 => 1
  | _ => 2
  end.

Definition has_ctx (pc : mpc) : bool :=
  match pc with mWithTimeout => false | _ => true end.
Definition has_resultChan (pc : mpc) : bool :=
  match pc with mWithTimeout | mDefer | mMakeResult => false | _ => true end.
Definition has_errChan (pc : mpc) : bool :=
  match pc with mWithTimeout | mDefer | mMakeResult | mMakeErr => false | _ => true end.
Definition has_defer (pc : mpc) : bool :=
  match pc with mWithTimeout | mDefer | mExited _ => false | _ => true end.

(** What [main] has logged. *)
Definition branch_log (br : branch) : list string :=
  match br with
  | BrDone => [Println "Timeout: Nenhuma resposta recebida em 1 segundo."]
  | BrResult e => [header e; fields e]
  | BrErr err => [failure err]
  end.

Definition log_of (pc : mpc) : list string :=
  match pc with
  | mResFields e => [header e]
  | mReturn br | mExited br => branch_log br
  | _ => []
  end.

Definition exit_of (pc : mpc) : option Z :=
  match pc with mExited _ => Some 0%Z | _ => None end.

Definition conc (a : astate) : state :=
  mkState
    (main_code (a_pc a))
    (if has_defer (a_pc a) then [DCancel] else [])
    (take (spawned (a_pc a))
       [task_code (goBrasilAPI ctx cep) (a_q1 a); task_code (goViaCEP ctx cep) (a_q2 a)])
    (mkShared
       (if has_ctx (a_pc a) then Some (a_ctx a) else None)
       (if has_resultChan (a_pc a) then Some (mkChan (a_results a) 2 false) else None)
       (if has_errChan (a_pc a) then Some (mkChan (a_errs a) 2 false) else None)
       (log_of (a_pc a)))
    (exit_of (a_pc a)).

(** What [main] has done when it is at a program point. *)
Definition branch_acts (br : branch) : list act :=
  match br with
  | BrDone => [ASelect BrDone; ALog (Println "Timeout: Nenhuma resposta recebida em 1 segundo.")]
  | BrResult e => [ASelect (BrResult e); ACancel; ALog (header e); ALog (fields e)]
  | BrErr err => [ASelect (BrErr err); ACancel; ALog (failure err)]
  end.

Definition prologue : list act :=
  [AWithTimeout d; ADefer; AMakeResultChan 2; AMakeErrChan 2; AGo 0; AGo 1].

Definition main_acts (pc : mpc) : list act :=
  match pc with
  | mWithTimeout => []
  | mDefer => take 1 prologue
  | mMakeResult => take 2 prologue
  | mMakeErr => take 3 prologue
  | mGo1 => take 4 prologue
  | mGo2 => take 5 prologue
  | mSelect => prologue
  | mDoneLog => prologue ++ take 1 (branch_acts BrDone)
  | mResCancel e => prologue ++ take 1 (branch_acts (BrResult e))
  | mResHeader e => prologue ++ take 2 (branch_acts (BrResult e))
  | mResFields e => prologue ++ take 3 (branch_acts (BrResult e))
  | mErrCancel err => prologue ++ take 1 (branch_acts (BrErr err))
  | mErrLog err => prologue ++ take 2 (branch_acts (BrErr err))
  | mReturn br => prologue ++ branch_acts br
  | mExited br => prologue ++ branch_acts br ++ [AExit 0]
  end.

(** What a started goroutine has done. *)
Definition task_acts (q : tpc) : list act :=
  match q with
  | tCall => []
  | tSend urls r => [ACall urls r]
  | tDone urls r => [ACall urls r; send_act r]
  end.

(** The fetcher's result came from some world. *)
Definition task_ok (t : io fetched) (q : tpc) : Prop :=
  match q with
  | tCall => True
  | tSend urls r | tDone urls r => exists w, urls = requested w t /\ r = interp w t
  end.

Definition sent (q : tpc) : nat :=
  match q with tDone _ _ => 1 | _ => 0 end.

Definition received (pc : mpc) : nat :=
  match pc with
  | mResCancel _ | mResHeader _ | mResFields _ | mErrCancel _ | mErrLog _ => 1
  | mReturn (BrResult _) | mReturn (BrErr _) => 1
  | mExited (BrResult _) | mExited (BrErr _) => 1
  | _ => 0
  end.

(** The case the [select] took, once it has. *)
Definition chosen (pc : mpc) : option branch :=
  match pc with
  | mDoneLog => Some BrDone
  | mResCancel e | mResHeader e | mResFields e => Some (BrResult e)
  | mErrCancel err | mErrLog err => Some (BrErr err)
  | mReturn br | mExited br => Some br
  | _ => None
  end.

(** A report on a channel was sent by a goroutine whose fetcher returned it. *)
Definition reported (q : tpc) (r : fetched) : Prop :=
  exists urls, q = tDone urls r.

Definition from_task (q1 q2 : tpc) (br : branch) : Prop :=
  match br with
  | BrDone => True
  | BrResult e => reported q1 (e, None) \/ reported q2 (e, None)
  | BrErr err => exists e0, reported q1 (e0, Some err) \/ reported q2 (e0, Some err)
  end.

Definition fired (c : ctx_status) : nat :=
  match c with DeadlineExceeded => 1 | _ => 0 end.

(** What holds of an abstract state after the events [tr]. *)
Record Good (a : astate) (tr : list event) : Prop := mkGood {
  good_q1 : task_ok (buscaBrasilAPI ctx cep) (a_q1 a);
  good_q2 : task_ok (buscaViaCEP ctx cep) (a_q2 a);
  good_count :
    length (a_results a) + length (a_errs a) + received (a_pc a)
    = sent (a_q1 a) + sent (a_q2 a);
  good_unspawned1 : spawned (a_pc a) < 1 -> a_q1 a = tCall;
  good_unspawned2 : spawned (a_pc a) < 2 -> a_q2 a = tCall;
  good_results :
    forall e, e ∈ a_results a -> from_task (a_q1 a) (a_q2 a) (BrResult e);
  good_errs :
    forall err, err ∈ a_errs a -> from_task (a_q1 a) (a_q2 a) (BrErr err);
  good_chosen :
    forall br, chosen (a_pc a) = Some br -> from_task (a_q1 a) (a_q2 a) br;
  good_noctx : has_ctx (a_pc a) = false -> a_ctx a = Active;
  good_expired :
    (d <=? 0)%Z = true -> has_ctx (a_pc a) = true -> a_ctx a = DeadlineExceeded;
  good_main : acts_of Main tr = main_acts (a_pc a);
  good_task1 : acts_of (Task 0) tr = task_acts (a_q1 a);
  good_task2 : acts_of (Task 1) tr = task_acts (a_q2 a);
  good_length :
    length tr <= length (main_acts (a_pc a)) + length (task_acts (a_q1 a))
                 + length (task_acts (a_q2 a)) + fired (a_ctx a)
}.

(** The invariant of the executions of [main_with cep d]. *)
Definition Inv (tr : list event) (s : state) : Prop :=
  exists a, s = conc a /\ Good a tr.

(** The abstract successor of a state under an event. *)
Definition cancelled (c : ctx_status) : ctx_status :=
  match c with Active => Canceled | _ => c end.

Definition main_next (a : astate) (x : act) : astate :=
  let at_ pc := mkA pc (a_q1 a) (a_q2 a) (a_ctx a) (a_results a) (a_errs a) in
  let cancel_at pc :=
    mkA pc (a_q1 a) (a_q2 a) (cancelled (a_ctx a)) (a_results a) (a_errs a) in
  match a_pc a with
  | mWithTimeout =>
      mkA mDefer (a_q1 a) (a_q2 a)
        (if (d <=? 0)%Z then DeadlineExceeded else Active) (a_results a) (a_errs a)
  | mDefer => at_ mMakeResult
  | mMakeResult => mkA mMakeErr (a_q1 a) (a_q2 a) (a_ctx a) [] (a_errs a)
  | mMakeErr => mkA mGo1 (a_q1 a) (a_q2 a) (a_ctx a) (a_results a) []
  | mGo1 => at_ mGo2
  | mGo2 => at_ mSelect
  | mSelect =>
      match x with
      | ASelect BrDone => at_ mDoneLog
      | ASelect (BrResult e) =>
          mkA (mResCancel e) (a_q1 a) (a_q2 a) (a_ctx a) (tail (a_results a)) (a_errs a)
      | ASelect (BrErr err) =>
          mkA (mErrCancel err) (a_q1 a) (a_q2 a) (a_ctx a) (a_results a) (tail (a_errs a))
      | _ => a
      end
  | mDoneLog => at_ (mReturn BrDone)
  | mResCancel e => cancel_at (mResHeader e)
  | mResHeader e => at_ (mResFields e)
  | mResFields e => at_ (mReturn (BrResult e))
  | mErrCancel err => cancel_at (mErrLog err)
  | mErrLog err => at_ (mReturn (BrErr err))
  | mReturn br => cancel_at (mExited br)
  | mExited _ => a
  end.

Definition task_next (q : tpc) (x : act) : tpc :=
  match q, x with
  | tCall, ACall urls r => tSend urls r
  | tSend urls r, _ => tDone urls r
  | _, _ => q
  end.

Definition push_result (x : act) (l : list Endereco) : list Endereco :=
  match x with ASendResult e => l ++ [e] | _ => l end.
Definition push_err (x : act) (l : list error) : list error :=
  match x with ASendErr err => l ++ [err] | _ => l end.

Definition anext (a : astate) (ev : event) : astate :=
  match ev with
  | Ev Main x => main_next a x
  | Ev (Task 0) x =>
      mkA (a_pc a) (task_next (a_q1 a) x) (a_q2 a) (a_ctx a)
        (push_result x (a_results a)) (push_err x (a_errs a))
  | Ev (Task 1) x =>
      mkA (a_pc a) (a_q1 a) (task_next (a_q2 a) x) (a_ctx a)
        (push_result x (a_results a)) (push_err x (a_errs a))
  | Ev (Task _) _ => a
  | Deadline =>
      mkA (a_pc a) (a_q1 a) (a_q2 a) DeadlineExceeded (a_results a) (a_errs a)
  end.

(** When an event can happen in an abstract state. *)
Definition exited (pc : mpc) : bool :=
  match pc with mExited _ => true | _ => false end.

Definition main_enabled (a : astate) (x : act) : Prop :=
  match a_pc a, x with
  | mWithTimeout, AWithTimeout d' => d' = d
  | mDefer, ADefer => True
  | mMakeResult, AMakeResultChan n => n = 2
  | mMakeErr, AMakeErrChan n => n = 2
  | mGo1, AGo i => i = 0 /\ a_q1 a = tCall
  | mGo2, AGo i => i = 1 /\ a_q2 a = tCall
  | mSelect, ASelect BrDone => a_ctx a <> Active
  | mSelect, ASelect (BrResult e) => head (a_results a) = Some e
  | mSelect, ASelect (BrErr err) => head (a_errs a) = Some err
  | mDoneLog, ALog l => l = Println "Timeout: Nenhuma resposta recebida em 1 segundo."
  | mResCancel _, ACancel => True
  | mResHeader e, ALog l => l = header e
  | mResFields e, ALog l => l = fields e
  | mErrCancel _, ACancel => True
  | mErrLog err, ALog l => l = failure err
  | mReturn _, AExit c => c = 0%Z
  | _, _ => False
  end.

Definition task_enabled (t : io fetched) (a : astate) (q : tpc) (x : act) : Prop :=
  match q, x with
  | tCall, ACall urls r => exists w, urls = requested w t /\ r = interp w t
  | tSend _ r, _ =>
      x = send_act r /\
      match snd r with
      | Some _ => length (a_errs a) < 2
      | None => length (a_results a) < 2
      end
  | _, _ => False
  end.

Definition enabled (a : astate) (ev : event) : Prop :=
  exited (a_pc a) = false /\
  match ev with
  | Ev Main x => main_enabled a x
  | Ev (Task 0) x =>
      1 <= spawned (a_pc a) /\ task_enabled (buscaBrasilAPI ctx cep) a (a_q1 a) x
  | Ev (Task 1) x =>
      2 <= spawned (a_pc a) /\ task_enabled (buscaViaCEP ctx cep) a (a_q2 a) x
  | Ev (Task _) _ => False
  | Deadline => has_ctx (a_pc a) = true /\ a_ctx a = Active
  end.

(** A list of events that can happen one after the other. *)
Fixpoint all_enabled (a : astate) (tr : list event) : Prop :=
  match tr with
  | [] => True
  | ev :: tr' => enabled a ev /\ all_enabled (anext a ev) tr'
  end.

(** An event of [main] or of the timer that can happen next. *)
Definition next_event (a : astate) : event :=
  match a_pc a with
  | mWithTimeout => Ev Main (AWithTimeout d)
  | mDefer => Ev Main ADefer
  | mMakeResult => Ev Main (AMakeResultChan 2)
  | mMakeErr => Ev Main (AMakeErrChan 2)
  | mGo1 => Ev Main (AGo 0)
  | mGo2 => Ev Main (AGo 1)
  | mSelect =>
      match a_ctx a with
      | Active => Deadline
      | _ => Ev Main (ASelect BrDone)
      end
  | mDoneLog =>
      Ev Main (ALog (Println "Timeout: Nenhuma resposta recebida em 1 segundo."))
  | mResCancel _ | mErrCancel _ => Ev Main ACancel
  | mResHeader e => Ev Main (ALog (header e))
  | mResFields e => Ev Main (ALog (fields e))
  | mErrLog err => Ev Main (ALog (failure err))
  | mReturn _ | mExited _ => Ev Main (AExit 0)
  end.

(** The abstract state at the start, and the state after a list of events. *)
Definition a0 : astate := mkA mWithTimeout tCall tCall Active [] [].

Definition after (tr : list event) : state :=
  conc (fold_left anext tr a0).

End Program.
End Points.


(** ** Sample executions of [main] *)

Definition prologue_events (d : Z) : list event :=
  [Ev Main (AWithTimeout d); Ev Main ADefer; Ev Main (AMakeResultChan 2);
   Ev Main (AMakeErrChan 2); Ev Main (AGo 0); Ev Main (AGo 1)].

Definition timeout_entry : string :=
  Println "Timeout: Nenhuma resposta recebida em 1 segundo.".

(** The timer fires and [main] takes the timeout case. *)
Definition timed_out : list event :=
  [Deadline; Ev Main (ASelect BrDone); Ev Main (ALog timeout_entry);
   Ev Main (AExit 0)].

(** The first goroutine gets an answer from BrasilAPI and reports it. *)
Definition brasil_reports : list event :=
  [Ev (Task 0) (ACall [brasil_url Copy1.cep] (sample_brasil, None));
   Ev (Task 0) (ASendResult sample_brasil)].

(** Nothing answers within the second. *)
Definition run_timeout : list event :=
  prologue_events Copy1.timeout ++ timed_out.

(** BrasilAPI's answer is in [resultChan], then the timer fires, then
    [main] selects. *)
Definition run_enqueued : list event :=
  prologue_events Copy1.timeout ++ brasil_reports.

Definition run_false_timeout : list event :=
  run_enqueued ++ timed_out.

(** BrasilAPI's answer wins. *)
Definition run_success : list event :=
  run_enqueued ++
  [Ev Main (ASelect (BrResult sample_brasil)); Ev Main ACancel;
   Ev Main (ALog (Copy1.header sample_brasil));
   Ev Main (ALog (Copy1.fields sample_brasil)); Ev Main (AExit 0)].

(** ViaCEP answers 404 first. *)
Definition via_404 : error := Errorf "ViaCEP retornou status %d" [AInt 404].

Definition run_failure : list event :=
  prologue_events Copy1.timeout ++
  [Ev (Task 1) (ACall [via_url Copy1.cep] (Endereco_zero, Some via_404));
   Ev (Task 1) (ASendErr via_404);
   Ev Main (ASelect (BrErr via_404)); Ev Main ACancel;
   Ev Main (ALog (Copy1.failure via_404)); Ev Main (AExit 0)].


(** [main] has taken the timeout case and logged it; BrasilAPI's answer
    comes after that, before [main] returns. *)
Definition run_timeout_late : list event :=
  prologue_events Copy1.timeout ++
  [Deadline; Ev Main (ASelect BrDone); Ev Main (ALog timeout_entry);
   Ev (Task 0) (ACall [brasil_url Copy1.cep] (sample_brasil, None))].

(** ... and [main] returns before the goroutine has sent it. *)
Definition run_unsent : list event :=
  run_timeout_late ++ [Ev Main (AExit 0)].

(** ** More to observe

    The calls a fetcher makes, the reports sent on the two channels, and
    what is kept about the context and the order of the reports. *)

(** A call into [net/http] or [encoding/json]. *)
Inductive call :=
| CNewRequest (ctx : context) (method url : string)
| CDo (req : Request)
| CDecode (body : string)
| CClose (body : string).

(** The calls a computation makes in a world, in order. *)
Fixpoint calls {A} (w : world) (t : io A) : list call :=
  match t with
  | Ret _ => []
  | NewRequestWithContext ctx m url k =>
      CNewRequest ctx m url :: calls w (k (w_NewRequestWithContext w ctx m url))
  | ClientDo req k => CDo req :: calls w (k (w_Do w req))
  | BodyClose body k => CClose body :: calls w k
  | DecodeBrasil body data k =>
      CDecode body :: calls w (k (w_DecodeBrasil w body data))
  | DecodeVia body data k =>
      CDecode body :: calls w (k (w_DecodeVia w body data))
  end.

(** The requests handed to the client among a list of calls. *)
Definition dos (l : list call) : list Request :=
  omap (fun c => match c with CDo r => Some r | _ => None end) l.

(** The reports sent on [resultChan] and on [errChan], in order. *)
Definition sent_results (tr : list event) : list Endereco :=
  omap (fun ev => match ev with
                  | Ev (Task _) (ASendResult e) => Some e
                  | _ => None
                  end) tr.

Definition sent_errs (tr : list event) : list error :=
  omap (fun ev => match ev with
                  | Ev (Task _) (ASendErr err) => Some err
                  | _ => None
                  end) tr.

Module Order.
Import Copy1 Points.

(** The status of the context at each point of [main]: [cancel] is not
    called before the [select], the timeout case is taken on an expired
    deadline, and the other two cases cancel before they log. *)
Definition ctx_at (pc : mpc) (c : ctx_status) : Prop :=
  match pc with
  | mWithTimeout => True
  | mDefer | mMakeResult | mMakeErr | mGo1 | mGo2 | mSelect
  | mResCancel _ | mErrCancel _ => c <> Canceled
  | mDoneLog | mReturn BrDone | mExited BrDone => c = DeadlineExceeded
  | mResHeader _ | mResFields _ | mErrLog _ | mReturn _ | mExited _ => c <> Active
  end.

(** What [main] has received from each channel. *)
Definition taken_results (pc : mpc) : list Endereco :=
  match chosen pc with Some (BrResult e) => [e] | _ => [] end.

Definition taken_errs (pc : mpc) : list error :=
  match chosen pc with Some (BrErr err) => [err] | _ => [] end.

Record More (a : astate) (tr : list event) : Prop := mkMore {
  more_ctx : ctx_at (a_pc a) (a_ctx a);
  more_no_results : has_resultChan (a_pc a) = false -> a_results a = [];
  more_no_errs : has_errChan (a_pc a) = false -> a_errs a = [];
  more_results : taken_results (a_pc a) ++ a_results a = sent_results tr;
  more_errs : taken_errs (a_pc a) ++ a_errs a = sent_errs tr
}.

End Order.
(** * Properties *)

(** ** Traces *)

Lemma acts_of_snoc g tr ev :
  acts_of g (tr ++ [ev]) =
  acts_of g tr ++ match ev with
                  | Ev g' a => if decide (g' = g) then [a] else []
                  | Deadline => []
                  end.
Proof.
  unfold acts_of. rewrite omap_app. f_equal.
  destruct ev as [g' a|]; simpl; [destruct (decide (g' = g))|]; reflexivity.
Qed.

Lemma acts_of_app g tr tr' : acts_of g (tr ++ tr') = acts_of g tr ++ acts_of g tr'.
Proof. unfold acts_of. apply omap_app. Qed.

Lemma outcomes_app tr tr' : outcomes (tr ++ tr') = outcomes tr ++ outcomes tr'.
Proof. unfold outcomes. rewrite acts_of_app. apply omap_app. Qed.

Lemma exec_cons s ev s1 tr s2 :
  step s ev s1 -> exec s1 tr s2 -> exec s (ev :: tr) s2.
Proof.
  intros Hst Hex. induction Hex as [|tr s2 ev' s3 Hex IH Hst'].
  - apply (exec_snoc s [] s ev s1); [constructor | exact Hst].
  - rewrite app_comm_cons. eapply exec_snoc; eassumption.
Qed.

Lemma exec_app s tr s1 tr' s2 :
  exec s tr s1 -> exec s1 tr' s2 -> exec s (tr ++ tr') s2.
Proof.
  intros H1 H2. induction H2 as [|tr' s2 ev s3 H2 IH Hst].
  - rewrite app_nil_r. exact H1.
  - rewrite app_assoc. eapply exec_snoc; eassumption.
Qed.

(** ** The invariant of the race *)

Module PointsFacts.
Import Copy1 Points.

Section Program.
Variable cep : string.
Variable d : Z.

#[local] Arguments interp : simpl never.
#[local] Arguments requested : simpl never.
#[local] Arguments buscaBrasilAPI : simpl never.
#[local] Arguments buscaViaCEP : simpl never.
#[local] Arguments Println : simpl never.
#[local] Arguments Printf : simpl never.

(** A step from the image of an abstract state leads to the image of its
    abstract successor. *)
Lemma step_conc a ev s' :
  (spawned (a_pc a) < 1 -> a_q1 a = tCall) ->
  (spawned (a_pc a) < 2 -> a_q2 a = tCall) ->
  step (conc cep d a) ev s' -> s' = conc cep d (anext d a ev).
Proof.
  destruct a as [pc q1 q2 c rs es]. simpl. intros U1 U2 Hst.
  inversion Hst; subst; simpl in *.
  - destruct pc; simpl in *; inversion H0; subst; simplify_eq/=; try reflexivity.
    all: destruct c; reflexivity.
  - destruct pc; simpl in *; try discriminate.
    all: destruct i as [|[|i]]; simpl in *; try discriminate.
    all: simplify_eq.
    all: match type of H1 with
         | gstep _ (task_code _ ?q) _ _ _ =>
             destruct q as [|? r|? r]; simpl in *;
             [| destruct r as [? [?|]]; simpl in * |]
         end;
         inversion H1; subst; simplify_eq/=; try reflexivity.
  - destruct pc; simpl in *; try discriminate; simplify_eq.
    + rewrite U1 by lia. reflexivity.
    + rewrite U2 by lia. reflexivity.
  - destruct pc; simpl in *; try discriminate; simplify_eq. reflexivity.
  - destruct pc; simpl in *; try discriminate; simplify_eq.
    all: destruct c; reflexivity.
  - destruct pc; simpl in *; try discriminate; simplify_eq; reflexivity.
Qed.

Ltac provenance :=
  intros; simplify_eq;
  repeat match goal with
         | R : forall br, Some ?b = Some br -> _ |- _ => specialize (R b eq_refl)
         end;
  try match goal with |- from_task _ _ ?b => is_var b; destruct b end;
  unfold from_task, reported in *; simpl in *;
  repeat match goal with
         | H : _ ∈ [] |- _ => apply elem_of_nil in H; destruct H
         | H : _ ∈ _ ++ _ |- _ => apply elem_of_app in H; destruct H
         | H : _ ∈ [_] |- _ => apply list_elem_of_singleton in H
         end;
  simplify_eq;
  try match goal with
      | Hx : ?x ∈ ?l, R : forall e, e ∈ ?l -> _ |- _ => specialize (R x Hx)
      | Hx : ?x ∈ ?l, R : forall e, e ∈ _ :: ?l -> _ |- _ =>
          specialize (R x (proj2 (elem_of_cons _ _ _) (or_intror Hx)))
      | R : forall e, e ∈ ?y :: _ -> _ |- context [?y] =>
          specialize (R y (proj2 (elem_of_cons _ _ _) (or_introl eq_refl)))
      end;
  repeat match goal with
         | H : _ \/ _ |- _ => destruct H
         | H : ex _ |- _ => destruct H
         end;
  simplify_eq; eauto 6.

Ltac good_fields U1 U2 NC :=
  simpl in *;
  try (rewrite U1 in * by lia); try (rewrite U2 in * by lia);
  try (rewrite NC in * by reflexivity);
  constructor; simpl in *;
  rewrite ?acts_of_snoc; simpl;
  repeat match goal with H : acts_of _ _ = _ |- _ => rewrite H; clear H end;
  rewrite ?length_app in *; simpl in *;
  rewrite ?app_nil_r;
  try reflexivity; try (intros; lia); try assumption; eauto;
  try (destruct (d <=? 0)%Z; simpl; (lia || congruence));
  try match goal with c : ctx_status |- _ => destruct c; simpl in *; lia end;
  try (intros; match goal with
               | X : _ -> _ -> ?c = DeadlineExceeded |- _ =>
                   rewrite X by (assumption || reflexivity); reflexivity
               end);
  try (provenance; fail).

(** The facts of [Good] are kept by every step. *)
Lemma step_good a tr ev s' :
  Good cep d a tr -> step (conc cep d a) ev s' ->
  Good cep d (anext d a ev) (tr ++ [ev]).
Proof.
  destruct a as [pc q1 q2 c rs es].
  intros [Q1 Q2 Cnt U1 U2 Rs Es Ch NC Ex M T1 T2 Len] Hst.
  inversion Hst; subst; simpl in *.
  - destruct pc; simpl in *; inversion H0; subst; simplify_eq/=.
    all: good_fields U1 U2 NC.
  - destruct pc; simpl in *; try discriminate.
    all: destruct i as [|[|i]]; simpl in *; try discriminate.
    all: simplify_eq.
    all: match type of H1 with
         | gstep _ (task_code _ ?q) _ _ _ =>
             destruct q as [|? r|? r]; simpl in *;
             [| destruct r as [? [?|]]; simpl in * |]
         end;
         inversion H1; subst; simplify_eq/=.
    all: good_fields U1 U2 NC.
  - destruct pc; simpl in *; try discriminate; simplify_eq.
    all: good_fields U1 U2 NC.
  - destruct pc; simpl in *; try discriminate; simplify_eq.
    all: good_fields U1 U2 NC.
  - destruct pc; simpl in *; try discriminate; simplify_eq.
    all: good_fields U1 U2 NC.
  - destruct pc; simpl in *; try discriminate; simplify_eq.
    all: good_fields U1 U2 NC.
Qed.

Lemma init_conc : init (main_with cep d) = conc cep d a0.
Proof. reflexivity. Qed.

Lemma init_good : Good cep d a0 [].
Proof.
  constructor; simpl; try reflexivity; try lia; try discriminate;
    try (intros ? H; apply elem_of_nil in H; destruct H).
Qed.

(** Every execution of [main_with cep d] stays in the invariant. *)
Lemma exec_inv tr s : exec (init (main_with cep d)) tr s -> Inv cep d tr s.
Proof.
  induction 1 as [|tr s ev s' Hex [a [-> G]] Hst].
  - exists a0. split; [apply init_conc | apply init_good].
  - exists (anext d a ev). split.
    + apply step_conc; [apply G | apply G | exact Hst].
    + eapply step_good; eassumption.
Qed.

End Program.
End PointsFacts.

(** ** The fetchers *)

Lemma append_empty_r (s : string) : s +:+ "" = s.
Proof.
  induction s as [|c s IH]; [reflexivity|].
  change (String c (s +:+ "") = String c s). now rewrite IH.
Qed.

Lemma Sprintf_brasil_url cep :
  Sprintf "https://brasilapi.com.br/api/cep/v1/%s" [AStr cep] = brasil_url cep.
Proof.
  unfold brasil_url.
  change (Sprintf "https://brasilapi.com.br/api/cep/v1/%s" [AStr cep])
    with ("https://brasilapi.com.br/api/cep/v1/" +:+ (cep +:+ "")).
  now rewrite append_empty_r.
Qed.

Lemma Sprintf_via_url cep :
  Sprintf "http://viacep.com.br/ws/%s/json/" [AStr cep] = via_url cep.
Proof. reflexivity. Qed.

(** What [buscaBrasilAPI] returns, by the answers of the world. *)
Lemma buscaBrasilAPI_cases w ctx cep :
  match w_NewRequestWithContext w ctx MethodGet (brasil_url cep) with
  | inr err => interp w (Copy1.buscaBrasilAPI ctx cep) = (Endereco_zero, Some err)
  | inl req =>
      match w_Do w req with
      | inr err => interp w (Copy1.buscaBrasilAPI ctx cep) = (Endereco_zero, Some err)
      | inl resp =>
          if (StatusCode resp =? StatusOK)%Z then
            match w_DecodeBrasil w (Body resp) Brasil.zero with
            | (data, Some err) =>
                interp w (Copy1.buscaBrasilAPI ctx cep) = (Endereco_zero, Some err)
            | (data, None) =>
                interp w (Copy1.buscaBrasilAPI ctx cep) =
                (mkEndereco (Brasil.Cep data) (Brasil.Street data)
                   (Brasil.Neighborhood data) (Brasil.City data)
                   (Brasil.State data) "BrasilAPI", None)
            end
          else
            interp w (Copy1.buscaBrasilAPI ctx cep) =
            (Endereco_zero,
             Some (Errorf "BrasilAPI retornou status %d" [AInt (StatusCode resp)]))
      end
  end.
Proof.
  unfold Copy1.buscaBrasilAPI. rewrite Sprintf_brasil_url. cbn [interp].
  destruct (w_NewRequestWithContext w ctx MethodGet (brasil_url cep)) as [req|err];
    [|reflexivity].
  cbn [interp]. destruct (w_Do w req) as [resp|err]; [|reflexivity].
  destruct (StatusCode resp =? StatusOK)%Z; cbn [negb interp]; [|reflexivity].
  destruct (w_DecodeBrasil w (Body resp) Brasil.zero) as [data [err|]]; reflexivity.
Qed.

(** What [buscaViaCEP] returns, by the answers of the world. *)
Lemma buscaViaCEP_cases w ctx cep :
  match w_NewRequestWithContext w ctx MethodGet (via_url cep) with
  | inr err => interp w (Copy1.buscaViaCEP ctx cep) = (Endereco_zero, Some err)
  | inl req =>
      match w_Do w req with
      | inr err => interp w (Copy1.buscaViaCEP ctx cep) = (Endereco_zero, Some err)
      | inl resp =>
          if (StatusCode resp =? StatusOK)%Z then
            match w_DecodeVia w (Body resp) Via.zero with
            | (data, Some err) =>
                interp w (Copy1.buscaViaCEP ctx cep) = (Endereco_zero, Some err)
            | (data, None) =>
                interp w (Copy1.buscaViaCEP ctx cep) =
                (mkEndereco (Via.Cep data) (Via.Logradouro data)
                   (Via.Bairro data) (Via.Localidade data)
                   (Via.Uf data) "ViaCEP", None)
            end
          else
            interp w (Copy1.buscaViaCEP ctx cep) =
            (Endereco_zero,
             Some (Errorf "ViaCEP retornou status %d" [AInt (StatusCode resp)]))
      end
  end.
Proof.
  unfold Copy1.buscaViaCEP. rewrite Sprintf_via_url. cbn [interp].
  destruct (w_NewRequestWithContext w ctx MethodGet (via_url cep)) as [req|err];
    [|reflexivity].
  cbn [interp]. destruct (w_Do w req) as [resp|err]; [|reflexivity].
  destruct (StatusCode resp =? StatusOK)%Z; cbn [negb interp]; [|reflexivity].
  destruct (w_DecodeVia w (Body resp) Via.zero) as [data [err|]]; reflexivity.
Qed.

(** Each fetcher asks for one request, of its URL. *)
Lemma requested_brasil w ctx cep :
  requested w (Copy1.buscaBrasilAPI ctx cep) = [brasil_url cep].
Proof.
  unfold Copy1.buscaBrasilAPI. rewrite Sprintf_brasil_url. cbn [requested].
  f_equal.
  destruct (w_NewRequestWithContext w ctx MethodGet (brasil_url cep)) as [req|err];
    [|reflexivity].
  cbn [requested]. destruct (w_Do w req) as [resp|err]; [|reflexivity].
  destruct (StatusCode resp =? StatusOK)%Z; cbn [negb requested]; [|reflexivity].
  destruct (w_DecodeBrasil w (Body resp) Brasil.zero) as [data [err|]]; reflexivity.
Qed.

Lemma requested_via w ctx cep :
  requested w (Copy1.buscaViaCEP ctx cep) = [via_url cep].
Proof.
  unfold Copy1.buscaViaCEP. rewrite Sprintf_via_url. cbn [requested].
  f_equal.
  destruct (w_NewRequestWithContext w ctx MethodGet (via_url cep)) as [req|err];
    [|reflexivity].
  cbn [requested]. destruct (w_Do w req) as [resp|err]; [|reflexivity].
  destruct (StatusCode resp =? StatusOK)%Z; cbn [negb requested]; [|reflexivity].
  destruct (w_DecodeVia w (Body resp) Via.zero) as [data [err|]]; reflexivity.
Qed.

(** C3. On a successful fetch each fetcher returns the record of the
    provider's response, field by field, with the name of the provider in
    [Fonte]: [buscaBrasilAPI] maps cep, street, neighborhood, city and state,
    [buscaViaCEP] maps cep, logradouro, bairro, localidade and uf.  A fetch
    succeeds exactly when the request was made, the call answered with
    status 200 and the payload was decoded; no field is checked or changed. *)
Theorem fetch_success_is_normalized (w : world) (ctx : context) (cep : string)
    (end_ : Endereco) :
  (interp w (Copy1.buscaBrasilAPI ctx cep) = (end_, None) <->
   exists req resp data,
     w_NewRequestWithContext w ctx MethodGet (brasil_url cep) = inl req /\
     w_Do w req = inl resp /\
     StatusCode resp = StatusOK /\
     w_DecodeBrasil w (Body resp) Brasil.zero = (data, None) /\
     end_ = {| CEP := Brasil.Cep data;
               Logradouro := Brasil.Street data;
               Bairro := Brasil.Neighborhood data;
               Cidade := Brasil.City data;
               UF := Brasil.State data;
               Fonte := "BrasilAPI" |})
  /\
  (interp w (Copy1.buscaViaCEP ctx cep) = (end_, None) <->
   exists req resp data,
     w_NewRequestWithContext w ctx MethodGet (via_url cep) = inl req /\
     w_Do w req = inl resp /\
     StatusCode resp = StatusOK /\
     w_DecodeVia w (Body resp) Via.zero = (data, None) /\
     end_ = {| CEP := Via.Cep data;
               Logradouro := Via.Logradouro data;
               Bairro := Via.Bairro data;
               Cidade := Via.Localidade data;
               UF := Via.Uf data;
               Fonte := "ViaCEP" |}).
Proof.
  split.
  - pose proof (buscaBrasilAPI_cases w ctx cep) as H.
    destruct (w_NewRequestWithContext w ctx MethodGet (brasil_url cep))
      as [req|err] eqn:E1.
    2: { rewrite H. split; [discriminate | intros (? & ? & ? & ? & _); discriminate]. }
    destruct (w_Do w req) as [resp|err] eqn:E2.
    2: { rewrite H. split; [discriminate|].
         intros (? & ? & ? & [= <-] & ? & _). congruence. }
    destruct (StatusCode resp =? StatusOK)%Z eqn:E3.
    2: { rewrite H. split; [discriminate|].
         intros (? & ? & ? & [= <-] & E & E' & _).
         rewrite E2 in E. injection E as <-. apply Z.eqb_neq in E3. contradiction. }
    apply Z.eqb_eq in E3.
    destruct (w_DecodeBrasil w (Body resp) Brasil.zero) as [data [err|]] eqn:E4;
      rewrite H.
    + split; [discriminate|].
      intros (? & ? & ? & [= <-] & E & _ & E' & _).
      rewrite E2 in E. injection E as <-. congruence.
    + split.
      * intros [= <-]. exists req, resp, data. auto.
      * intros (? & ? & ? & [= <-] & E & _ & E' & ->).
        rewrite E2 in E. injection E as <-. rewrite E4 in E'. injection E' as <-.
        reflexivity.
  - pose proof (buscaViaCEP_cases w ctx cep) as H.
    destruct (w_NewRequestWithContext w ctx MethodGet (via_url cep))
      as [req|err] eqn:E1.
    2: { rewrite H. split; [discriminate | intros (? & ? & ? & ? & _); discriminate]. }
    destruct (w_Do w req) as [resp|err] eqn:E2.
    2: { rewrite H. split; [discriminate|].
         intros (? & ? & ? & [= <-] & ? & _). congruence. }
    destruct (StatusCode resp =? StatusOK)%Z eqn:E3.
    2: { rewrite H. split; [discriminate|].
         intros (? & ? & ? & [= <-] & E & E' & _).
         rewrite E2 in E. injection E as <-. apply Z.eqb_neq in E3. contradiction. }
    apply Z.eqb_eq in E3.
    destruct (w_DecodeVia w (Body resp) Via.zero) as [data [err|]] eqn:E4;
      rewrite H.
    + split; [discriminate|].
      intros (? & ? & ? & [= <-] & E & _ & E' & _).
      rewrite E2 in E. injection E as <-. congruence.
    + split.
      * intros [= <-]. exists req, resp, data. auto.
      * intros (? & ? & ? & [= <-] & E & _ & E' & ->).
        rewrite E2 in E. injection E as <-. rewrite E4 in E'. injection E' as <-.
        reflexivity.
Qed.

Lemma fetch_success_is_normalized_witness :
  interp world_ok (Copy1.buscaBrasilAPI Background "06341650") = (sample_brasil, None)
  /\ exists req resp data,
       w_NewRequestWithContext world_ok Background MethodGet (brasil_url "06341650")
       = inl req /\
       w_Do world_ok req = inl resp /\
       StatusCode resp = StatusOK /\
       w_DecodeBrasil world_ok (Body resp) Brasil.zero = (data, None) /\
       sample_brasil = {| CEP := Brasil.Cep data;
                          Logradouro := Brasil.Street data;
                          Bairro := Brasil.Neighborhood data;
                          Cidade := Brasil.City data;
                          UF := Brasil.State data;
                          Fonte := "BrasilAPI" |}.
Proof.
  split; [reflexivity|].
  apply (proj1 (proj1 (fetch_success_is_normalized world_ok Background "06341650"
                         sample_brasil))).
  reflexivity.
Defined.

(** C4. Whenever a fetcher returns a non-nil error, whatever the cause
    (request not made, transport error, status other than 200, payload not
    decoded), the [Endereco] it returns with it is the zero value. *)
Theorem fetch_error_has_zero_endereco (w : world) (ctx : context) (cep : string)
    (end_ : Endereco) (err : error) :
  (interp w (Copy1.buscaBrasilAPI ctx cep) = (end_, Some err) -> end_ = Endereco_zero)
  /\
  (interp w (Copy1.buscaViaCEP ctx cep) = (end_, Some err) -> end_ = Endereco_zero).
Proof.
  split.
  - pose proof (buscaBrasilAPI_cases w ctx cep) as H.
    destruct (w_NewRequestWithContext w ctx MethodGet (brasil_url cep)) as [req|e1];
      [|rewrite H; congruence].
    destruct (w_Do w req) as [resp|e2]; [|rewrite H; congruence].
    destruct (StatusCode resp =? StatusOK)%Z; [|rewrite H; congruence].
    destruct (w_DecodeBrasil w (Body resp) Brasil.zero) as [data [e3|]];
      rewrite H; congruence.
  - pose proof (buscaViaCEP_cases w ctx cep) as H.
    destruct (w_NewRequestWithContext w ctx MethodGet (via_url cep)) as [req|e1];
      [|rewrite H; congruence].
    destruct (w_Do w req) as [resp|e2]; [|rewrite H; congruence].
    destruct (StatusCode resp =? StatusOK)%Z; [|rewrite H; congruence].
    destruct (w_DecodeVia w (Body resp) Via.zero) as [data [e3|]];
      rewrite H; congruence.
Qed.

Lemma fetch_error_has_zero_endereco_witness :
  interp world_truncated (Copy1.buscaBrasilAPI Background "06341650")
  = (Endereco_zero, Some (New "unexpected EOF"))
  /\ fst (w_DecodeBrasil world_truncated "{" Brasil.zero) <> Brasil.zero
  /\ Endereco_zero = Endereco_zero.
Proof.
  split; [reflexivity|]. split; [discriminate|].
  apply (proj1 (fetch_error_has_zero_endereco world_truncated Background "06341650"
                  Endereco_zero (New "unexpected EOF"))).
  reflexivity.
Defined.

(** C8. The two copies of the program agree: their fetchers are the same
    computations and return the same pair in every world, and the two
    [main] functions are the same program, racing the CEP ["06341650"]
    under a timeout of one second. *)
Theorem copies_agree :
  (forall ctx cep, Copy2.buscaBrasilAPI ctx cep = Copy1.buscaBrasilAPI ctx cep) /\
  (forall ctx cep, Copy2.buscaViaCEP ctx cep = Copy1.buscaViaCEP ctx cep) /\
  (forall w ctx cep,
     interp w (Copy2.buscaBrasilAPI ctx cep) = interp w (Copy1.buscaBrasilAPI ctx cep) /\
     interp w (Copy2.buscaViaCEP ctx cep) = interp w (Copy1.buscaViaCEP ctx cep)) /\
  Copy2.main = Copy1.main /\
  (forall tr s, exec (init Copy2.main) tr s <-> exec (init Copy1.main) tr s) /\
  Copy2.cep = Copy1.cep /\ Copy1.cep = "06341650" /\
  Copy2.timeout = Copy1.timeout /\ Copy1.timeout = 1000000000%Z.
Proof.
  assert (Hmain : Copy2.main = Copy1.main) by reflexivity.
  repeat split; try reflexivity; rewrite Hmain; trivial.
Qed.

(** ** Steps of the race *)

Lemma step_main_to s a sh' p' s' :
  st_exit s = None ->
  gstep (st_shared s) (st_main s) a sh' p' ->
  s' = mkState p' (st_defers s) (st_pool s) sh' None ->
  step s (Ev Main a) s'.
Proof. intros ? ? ->. now apply step_main. Qed.

Lemma step_task_to s i p a sh' p' s' :
  st_exit s = None ->
  st_pool s !! i = Some p ->
  gstep (st_shared s) p a sh' p' ->
  s' = mkState (st_main s) (st_defers s) (<[i:=p']> (st_pool s)) sh' None ->
  step s (Ev (Task i) a) s'.
Proof. intros ? ? ? ->. now apply step_task with p. Qed.

Lemma step_go_to s body k n s' :
  st_exit s = None ->
  st_main s = Go body k ->
  n = length (st_pool s) ->
  s' = mkState k (st_defers s) (st_pool s ++ [body]) (st_shared s) None ->
  step s (Ev Main (AGo n)) s'.
Proof. intros ? ? -> ->. now apply step_go. Qed.

Lemma step_defer_to s k s' :
  st_exit s = None ->
  st_main s = DeferCancel k ->
  s' = mkState k (DCancel :: st_defers s) (st_pool s) (st_shared s) None ->
  step s (Ev Main ADefer) s'.
Proof. intros ? ? ->. now apply step_defer. Qed.

Lemma step_return_to s s' :
  st_exit s = None ->
  st_main s = Return ->
  s' = mkState Return [] (st_pool s) (run_deferred (st_defers s) (st_shared s))
         (Some 0%Z) ->
  step s (Ev Main (AExit 0)) s'.
Proof. intros ? ? ->. now apply step_return. Qed.

Lemma step_deadline_to s s' :
  st_exit s = None ->
  sh_ctx (st_shared s) = Some Active ->
  s' = mkState (st_main s) (st_defers s) (st_pool s)
         (set_ctx (st_shared s) (Some DeadlineExceeded)) None ->
  step s Deadline s'.
Proof. intros ? ? ->. now apply step_deadline. Qed.

Module RaceSteps.
Import Copy1 Points.

Section Program.
Variable cep : string.
Variable d : Z.

#[local] Arguments interp : simpl never.
#[local] Arguments requested : simpl never.
#[local] Arguments buscaBrasilAPI : simpl never.
#[local] Arguments buscaViaCEP : simpl never.
#[local] Arguments Println : simpl never.
#[local] Arguments Printf : simpl never.

(** An enabled event is a step, to the image of the abstract successor. *)
Lemma conc_step a ev :
  enabled cep d a ev -> step (conc cep d a) ev (conc cep d (anext d a ev)).
Proof.
  destruct a as [pc q1 q2 c rs es]. intros [Hex H].
  destruct ev as [[|i] x|]; simpl in *.
  - unfold main_enabled in H; simpl in H.
    destruct pc; try discriminate; destruct x; try contradiction; simpl in *.
    all: try match goal with br : branch |- _ => destruct br end.
    all: try match type of H with _ /\ _ => destruct H as [-> ->] end.
    all: try match type of H with
             | head ?l = Some _ => destruct l; simplify_eq/=
             end.
    all: subst.
    all: first
      [ eapply step_go_to; reflexivity
      | eapply step_defer_to; reflexivity
      | eapply step_return_to; [reflexivity | reflexivity | destruct c; reflexivity]
      | eapply step_main_to;
        [ reflexivity
        | simpl; econstructor; simpl; (reflexivity || eassumption)
        | simpl; try reflexivity; destruct c; reflexivity ]
      | idtac "m"; match goal with |- ?g => idtac g end ].
  - destruct i as [|[|i]]; try contradiction; destruct H as [Hsp H].
    + destruct q1 as [|u r|u r]; simpl in H; try contradiction.
      * destruct x; try contradiction. destruct H as (w & -> & ->).
        destruct pc; simpl in *; try discriminate; try lia.
        all: eapply step_task_to;
          [reflexivity | reflexivity | apply (gs_Call _ _ _ w) | reflexivity].
      * destruct H as [-> H]. destruct r as [e [err|]]; simpl in *.
        all: destruct pc; simpl in *; try discriminate; try lia.
        all: eapply step_task_to;
          [ reflexivity | reflexivity
          | simpl; econstructor; simpl; (reflexivity || eassumption)
          | reflexivity ].
    + destruct q2 as [|u r|u r]; simpl in H; try contradiction.
      * destruct x; try contradiction. destruct H as (w & -> & ->).
        destruct pc; simpl in *; try discriminate; try lia.
        all: eapply step_task_to;
          [reflexivity | reflexivity | apply (gs_Call _ _ _ w) | reflexivity].
      * destruct H as [-> H]. destruct r as [e [err|]]; simpl in *.
        all: destruct pc; simpl in *; try discriminate; try lia.
        all: eapply step_task_to;
          [ reflexivity | reflexivity
          | simpl; econstructor; simpl; (reflexivity || eassumption)
          | reflexivity ].
  - destruct H as [Hc ->].
    destruct pc; simpl in *; try discriminate.
    all: eapply step_deadline_to; reflexivity.
Qed.

(** A list of enabled events is an execution. *)
Lemma conc_exec tr : forall a,
  all_enabled cep d a tr ->
  exec (conc cep d a) tr (conc cep d (fold_left (anext d) tr a)).
Proof.
  induction tr as [|ev tr IH]; intros a H; simpl in *.
  - constructor.
  - destruct H as [He Hrest]. eapply exec_cons.
    + apply conc_step, He.
    + apply IH, Hrest.
Qed.

Lemma main_exec tr :
  all_enabled cep d a0 tr ->
  exec (init (main_with cep d)) tr (after cep d tr).
Proof. intros H. rewrite PointsFacts.init_conc. now apply conc_exec. Qed.
End Program.
End RaceSteps.

(** ** Sample executions *)

Lemma run_timeout_exec :
  exec (init Copy1.main) run_timeout (Points.after Copy1.cep Copy1.timeout run_timeout).
Proof.
  apply RaceSteps.main_exec. simpl. unfold Points.enabled. simpl.
  repeat split; try reflexivity; try discriminate.
Qed.

Lemma run_enqueued_exec :
  exec (init Copy1.main) run_enqueued (Points.after Copy1.cep Copy1.timeout run_enqueued).
Proof.
  apply RaceSteps.main_exec. simpl. unfold Points.enabled. simpl.
  repeat split; try reflexivity; try discriminate; try lia.
  exists world_ok. split; reflexivity.
Qed.

Lemma run_false_timeout_exec :
  exec (init Copy1.main) run_false_timeout
    (Points.after Copy1.cep Copy1.timeout run_false_timeout).
Proof.
  apply RaceSteps.main_exec. simpl. unfold Points.enabled. simpl.
  repeat split; try reflexivity; try discriminate; try lia.
  exists world_ok. split; reflexivity.
Qed.

Lemma run_success_exec :
  exec (init Copy1.main) run_success (Points.after Copy1.cep Copy1.timeout run_success).
Proof.
  apply RaceSteps.main_exec. simpl. unfold Points.enabled. simpl.
  repeat split; try reflexivity; try discriminate; try lia.
  exists world_ok. split; reflexivity.
Qed.

Lemma run_failure_exec :
  exec (init Copy1.main) run_failure (Points.after Copy1.cep Copy1.timeout run_failure).
Proof.
  apply RaceSteps.main_exec. simpl. unfold Points.enabled. simpl.
  repeat split; try reflexivity; try discriminate; try lia.
  exists world_404. split; reflexivity.
Qed.

(** ** Facts of every execution *)

Module RaceFacts.
Import Copy1 Points.

Section Program.
Variable cep : string.
Variable d : Z.

#[local] Arguments interp : simpl never.
#[local] Arguments requested : simpl never.
#[local] Arguments buscaBrasilAPI : simpl never.
#[local] Arguments buscaViaCEP : simpl never.
#[local] Arguments Println : simpl never.
#[local] Arguments Printf : simpl never.

Lemma outcomes_chosen a tr :
  Good cep d a tr ->
  outcomes tr = match chosen (a_pc a) with Some br => [br] | None => [] end.
Proof.
  intros G. unfold outcomes. rewrite (good_main _ _ _ _ G).
  destruct (a_pc a) as [| | | | | | | | | | | | |br|br]; try reflexivity;
    destruct br; reflexivity.
Qed.

Lemma outcome_count tr s :
  exec (init (main_with cep d)) tr s -> length (outcomes tr) <= 1.
Proof.
  intros H. destruct (PointsFacts.exec_inv cep d tr s H) as (a & -> & G).
  rewrite (outcomes_chosen a tr G). destruct (chosen (a_pc a)); simpl; lia.
Qed.

Lemma exited_outcome tr s :
  exec (init (main_with cep d)) tr s -> st_exit s <> None ->
  st_exit s = Some 0%Z /\
  exists br, outcomes tr = [br] /\ sh_log (st_shared s) = branch_log br.
Proof.
  intros H. destruct (PointsFacts.exec_inv cep d tr s H) as (a & -> & G).
  rewrite (outcomes_chosen a tr G). destruct a as [pc q1 q2 c rs es]. simpl.
  destruct pc; simpl; try congruence. intros _. split; [reflexivity|].
  eexists; split; reflexivity.
Qed.

Lemma next_enabled a tr :
  Good cep d a tr -> exited (a_pc a) = false -> enabled cep d a (next_event d a).
Proof.
  intros G Hex. split; [exact Hex|].
  pose proof (good_unspawned1 _ _ _ _ G) as U1.
  pose proof (good_unspawned2 _ _ _ _ G) as U2.
  destruct a as [pc q1 q2 c rs es]. unfold next_event, main_enabled. simpl in *.
  destruct pc; simpl in *; try discriminate; auto;
    try (split; [reflexivity | (apply U1 || apply U2); lia]).
  destruct c; simpl; auto; discriminate.
Qed.

Lemma progress tr s :
  exec (init (main_with cep d)) tr s -> st_exit s = None ->
  exists ev s', step s ev s' /\ (ev = Deadline \/ exists x, ev = Ev Main x).
Proof.
  intros H. destruct (PointsFacts.exec_inv cep d tr s H) as (a & -> & G).
  intros Hex. assert (Hne : exited (a_pc a) = false).
  { destruct a as [pc q1 q2 c rs es]. destruct pc; try reflexivity. discriminate. }
  exists (next_event d a), (conc cep d (anext d a (next_event d a))).
  split; [apply RaceSteps.conc_step; eapply next_enabled; eassumption|].
  unfold next_event. destruct (a_pc a); eauto. destruct (a_ctx a); eauto.
Qed.

Lemma trace_bound tr s :
  exec (init (main_with cep d)) tr s -> length tr <= 16.
Proof.
  intros H. destruct (PointsFacts.exec_inv cep d tr s H) as (a & -> & G).
  pose proof (good_length _ _ _ _ G) as L.
  destruct a as [pc q1 q2 c rs es]. simpl in L.
  assert (length (main_acts d pc) <= 11)
    by (destruct pc as [| | | | | | | | | | | | |br|br]; simpl; try lia;
        destruct br; simpl; lia).
  assert (length (task_acts q1) <= 2) by (destruct q1; simpl; lia).
  assert (length (task_acts q2) <= 2) by (destruct q2; simpl; lia).
  assert (fired c <= 1) by (destruct c; simpl; lia).
  lia.
Qed.

Lemma channel_facts tr s :
  exec (init (main_with cep d)) tr s ->
  (forall c, sh_resultChan (st_shared s) = Some c ->
             cap c = 2 /\ closed c = false /\ length (buf c) <= 2) /\
  (forall c, sh_errChan (st_shared s) = Some c ->
             cap c = 2 /\ closed c = false /\ length (buf c) <= 2) /\
  length (st_pool s) <= 2.
Proof.
  intros H. destruct (PointsFacts.exec_inv cep d tr s H) as (a & -> & G).
  pose proof (good_count _ _ _ _ G) as Cnt.
  destruct a as [pc q1 q2 c rs es]. simpl in *.
  assert (sent q1 <= 1) by (destruct q1; simpl; lia).
  assert (sent q2 <= 1) by (destruct q2; simpl; lia).
  repeat split.
  1-3: destruct (has_resultChan pc); simplify_eq; simpl; try reflexivity; lia.
  1-3: destruct (has_errChan pc); simplify_eq; simpl; try reflexivity; lia.
  rewrite length_take. simpl. lia.
Qed.

(** A goroutine that is at a send can do it. *)
Lemma send_enabled tr s i p :
  exec (init (main_with cep d)) tr s -> st_exit s = None ->
  st_pool s !! i = Some p ->
  (forall e k, p = SendResult e k ->
     exists s', step s (Ev (Task i) (ASendResult e)) s') /\
  (forall err k, p = SendErr err k ->
     exists s', step s (Ev (Task i) (ASendErr err)) s').
Proof.
  intros H. destruct (PointsFacts.exec_inv cep d tr s H) as (a & -> & G).
  pose proof (good_count _ _ _ _ G) as Cnt.
  destruct a as [pc q1 q2 c rs es]. simpl in *. intros Hex Hp.
  assert (Hne : exited pc = false) by (destruct pc; try reflexivity; discriminate).
  apply lookup_take_Some in Hp as [Hp Hi].
  assert (S1 : sent q1 <= 1) by (destruct q1; simpl; lia).
  assert (S2 : sent q2 <= 1) by (destruct q2; simpl; lia).
  destruct i as [|[|i]]; simpl in Hp; simplify_eq.
  - destruct q1 as [|u [e0 [err0|]]|u r]; simpl in *.
    all: split; intros; unfold send_code, goBrasilAPI, goViaCEP in *; simplify_eq/=.
    all: eexists; apply (RaceSteps.conc_step cep d (mkA pc _ q2 c rs es)).
    all: split; [exact Hne|]; simpl; split; [lia|]; split; [reflexivity|]; simpl; lia.
  - destruct q2 as [|u [e0 [err0|]]|u r]; simpl in *.
    all: split; intros; unfold send_code, goBrasilAPI, goViaCEP in *; simplify_eq/=.
    all: eexists; apply (RaceSteps.conc_step cep d (mkA pc q1 _ c rs es)).
    all: split; [exact Hne|]; simpl; split; [lia|]; split; [reflexivity|]; simpl; lia.
Qed.

(** What the two goroutines have done. *)
Lemma task_history tr s :
  exec (init (main_with cep d)) tr s ->
  exists q1 q2,
    acts_of (Task 0) tr = task_acts q1 /\
    acts_of (Task 1) tr = task_acts q2 /\
    task_ok (buscaBrasilAPI ctx cep) q1 /\
    task_ok (buscaViaCEP ctx cep) q2 /\
    (forall p, st_pool s !! 0 = Some p -> p = task_code (goBrasilAPI ctx cep) q1) /\
    (forall p, st_pool s !! 1 = Some p -> p = task_code (goViaCEP ctx cep) q2) /\
    (forall br, br ∈ outcomes tr -> from_task q1 q2 br).
Proof.
  intros H. destruct (PointsFacts.exec_inv cep d tr s H) as (a & -> & G).
  exists (a_q1 a), (a_q2 a).
  rewrite (outcomes_chosen a tr G).
  pose proof (good_chosen _ _ _ _ G) as Ch.
  destruct G. destruct a as [pc q1 q2 c rs es]. simpl in *.
  repeat split; auto.
  - intros p Hp. apply lookup_take_Some in Hp as [Hp _]. simpl in Hp. congruence.
  - intros p Hp. apply lookup_take_Some in Hp as [Hp _]. simpl in Hp. congruence.
  - intros br Hbr. destruct (chosen pc) as [br'|].
    + apply list_elem_of_singleton in Hbr as ->. now apply Ch.
    + apply elem_of_nil in Hbr. destruct Hbr.
Qed.

End Program.
End RaceFacts.

(** ** The race *)

(** C1. Every execution of [main] takes at most one case of its [select],
    and an execution that has ended took exactly one, whose report is what
    was logged.  While [main] has not returned, [main] or the timer can
    always take a step, and no execution has more than 16 steps, so every
    execution that runs on ends with one outcome.  Whatever happens after
    the case was taken (a goroutine that completes late) leaves the outcome
    as it is. *)
Theorem race_one_outcome (tr : list event) (s : state) :
  exec (init Copy1.main) tr s ->
  length (outcomes tr) <= 1 /\
  (st_exit s <> None ->
   exists br, outcomes tr = [br] /\ sh_log (st_shared s) = Points.branch_log br) /\
  (st_exit s = None ->
   exists ev s', step s ev s' /\ (ev = Deadline \/ exists x, ev = Ev Main x)) /\
  length tr <= 16 /\
  (forall tr' s' br,
     exec (init Copy1.main) (tr ++ tr') s' ->
     outcomes tr = [br] -> outcomes (tr ++ tr') = [br]).
Proof.
  intros H. split; [|split; [|split; [|split]]].
  - eapply RaceFacts.outcome_count, H.
  - intros Hex. eapply RaceFacts.exited_outcome; eassumption.
  - intros Hex. eapply RaceFacts.progress; eassumption.
  - eapply RaceFacts.trace_bound, H.
  - intros tr' s' br H' Hbr.
    pose proof (RaceFacts.outcome_count _ _ _ _ H') as L.
    rewrite outcomes_app, Hbr in *. rewrite length_app in L. simpl in L.
    destruct (outcomes tr'); [reflexivity | simpl in L; lia].
Qed.

Lemma race_one_outcome_witness :
  exec (init Copy1.main) run_success
    (Points.after Copy1.cep Copy1.timeout run_success)
  /\ length (outcomes run_success) <= 1.
Proof.
  split; [exact run_success_exec|].
  exact (proj1 (race_one_outcome run_success _ run_success_exec)).
Defined.

(** C2, as the code has it.  When [main] is at its [select] and a report is
    at the head of [resultChan], the case of that report can be taken; the
    cases [main] can take are that one, the timeout case when the context
    is done, and the error case when [errChan] holds an error.  When the
    context is done the timeout case can be taken as well: nothing is taken
    out of the channels before the deadline is honoured. *)
Theorem select_takes_any_ready_case (tr : list event) (s : state)
    (c : chan Endereco) (e : Endereco) (rest : list Endereco) :
  exec (init Copy1.main) tr s ->
  st_main s = Select Copy1.onDone Copy1.onResult Copy1.onErr ->
  sh_resultChan (st_shared s) = Some c ->
  buf c = e :: rest ->
  (exists s', step s (Ev Main (ASelect (BrResult e))) s') /\
  (forall x s', step s (Ev Main x) s' ->
     x = ASelect (BrResult e) \/
     (x = ASelect BrDone /\ sh_ctx (st_shared s) <> Some Active) \/
     (exists ce err rest', x = ASelect (BrErr err) /\
        sh_errChan (st_shared s) = Some ce /\ buf ce = err :: rest')) /\
  (sh_ctx (st_shared s) <> Some Active ->
   exists s', step s (Ev Main (ASelect BrDone)) s').
Proof.
  intros H Hm Hc Hb.
  destruct (PointsFacts.exec_inv _ _ _ _ H) as (a & -> & G).
  destruct a as [pc q1 q2 cs rs es]. simpl in *.
  destruct pc; simpl in Hm; try discriminate. simpl in *. simplify_eq/=.
  split; [|split].
  - eexists. apply step_main; [reflexivity|].
    simpl. eapply gs_Select_result; reflexivity.
  - intros x s' Hst. inversion Hst; subst; simpl in *; try discriminate.
    inversion H3; subst; simpl in *; simplify_eq/=.
    + right. left. split; [reflexivity | congruence].
    + left. reflexivity.
    + right. right. eauto 6.
  - intros Hctx. eexists. apply step_main; [reflexivity|].
    simpl. eapply gs_Select_done; [reflexivity | congruence].
Qed.

Lemma select_takes_any_ready_case_witness :
  exec (init Copy1.main) (run_enqueued ++ [Deadline])
    (Points.after Copy1.cep Copy1.timeout (run_enqueued ++ [Deadline]))
  /\ (exists s', step (Points.after Copy1.cep Copy1.timeout (run_enqueued ++ [Deadline]))
                   (Ev Main (ASelect (BrResult sample_brasil))) s')
  /\ (exists s', step (Points.after Copy1.cep Copy1.timeout (run_enqueued ++ [Deadline]))
                   (Ev Main (ASelect BrDone)) s').
Proof.
  assert (R : exec (init Copy1.main) (run_enqueued ++ [Deadline])
                (Points.after Copy1.cep Copy1.timeout (run_enqueued ++ [Deadline]))).
  { apply RaceSteps.main_exec. simpl. unfold Points.enabled. simpl.
    repeat split; try reflexivity; try discriminate; try lia.
    exists world_ok. split; reflexivity. }
  split; [exact R|].
  destruct (select_takes_any_ready_case _ _
              (mkChan [sample_brasil] 2 false) sample_brasil [] R
              eq_refl eq_refl eq_refl) as (H1 & _ & H3).
  split; [exact H1|]. apply H3. discriminate.
Defined.

(** C2 fails as stated: BrasilAPI's answer is in [resultChan] while the
    context is still active, the timer fires, and [main] then takes the
    timeout case and logs the timeout. *)
Lemma false_timeout_with_report_enqueued :
  exists s1 s2 s3,
    exec (init Copy1.main) run_enqueued s1 /\
    sh_resultChan (st_shared s1) = Some (mkChan [sample_brasil] 2 false) /\
    sh_ctx (st_shared s1) = Some Active /\
    step s1 Deadline s2 /\
    exec (init Copy1.main) (run_enqueued ++ timed_out) s3 /\
    outcomes (run_enqueued ++ timed_out) = [BrDone] /\
    sh_log (st_shared s3) = [timeout_entry] /\
    st_exit s3 = Some 0%Z.
Proof.
  exists (Points.after Copy1.cep Copy1.timeout run_enqueued).
  exists (Points.after Copy1.cep Copy1.timeout (run_enqueued ++ [Deadline])).
  exists (Points.after Copy1.cep Copy1.timeout run_false_timeout).
  split; [exact run_enqueued_exec|].
  split; [reflexivity|]. split; [reflexivity|].
  split.
  { apply (RaceSteps.conc_step Copy1.cep Copy1.timeout
             (fold_left (Points.anext Copy1.timeout) run_enqueued Points.a0) Deadline).
    repeat split. }
  split; [exact run_false_timeout_exec|].
  repeat split.
Qed.

(** C6, as the code has it.  [main] returns after each of the three cases,
    so the exit status of an execution that has ended is 0 whatever its
    outcome. *)
Theorem exit_status_is_zero (tr : list event) (s : state) (code : Z) :
  exec (init Copy1.main) tr s ->
  st_exit s = Some code ->
  code = 0%Z /\ exists br, outcomes tr = [br].
Proof.
  intros H Hex.
  destruct (RaceFacts.exited_outcome _ _ _ _ H) as (E & br & Hbr & _);
    [congruence|].
  split; [congruence | eauto].
Qed.

Lemma exit_status_is_zero_witness :
  exec (init Copy1.main) run_failure
    (Points.after Copy1.cep Copy1.timeout run_failure)
  /\ (0 = 0)%Z /\ exists br, outcomes run_failure = [br].
Proof.
  split; [exact run_failure_exec|].
  exact (exit_status_is_zero run_failure _ 0 run_failure_exec eq_refl).
Defined.

(** C6 fails as stated: an execution that ends in the timeout and one that
    ends in an error both exit with status 0. *)
Lemma timeout_and_failure_exit_zero :
  (exists s, exec (init Copy1.main) run_timeout s /\
             outcomes run_timeout = [BrDone] /\ st_exit s = Some 0%Z) /\
  (exists s, exec (init Copy1.main) run_failure s /\
             outcomes run_failure = [BrErr via_404] /\ st_exit s = Some 0%Z).
Proof.
  split.
  - exists (Points.after Copy1.cep Copy1.timeout run_timeout).
    split; [exact run_timeout_exec|]. split; reflexivity.
  - exists (Points.after Copy1.cep Copy1.timeout run_failure).
    split; [exact run_failure_exec|]. split; reflexivity.
Qed.

(** C7. Both channels are made with capacity 2 and [main] starts two
    goroutines, so the capacity is at least the number of senders; neither
    buffer ever holds more than 2 reports, and a goroutine that is at its
    send can always do it while the process runs, whatever [main] has
    done. *)
Theorem send_never_blocks (tr : list event) (s : state) :
  exec (init Copy1.main) tr s ->
  (forall c, sh_resultChan (st_shared s) = Some c ->
     cap c = 2 /\ length (st_pool s) <= cap c /\ length (buf c) <= cap c) /\
  (forall c, sh_errChan (st_shared s) = Some c ->
     cap c = 2 /\ length (st_pool s) <= cap c /\ length (buf c) <= cap c) /\
  (forall i e k, st_exit s = None -> st_pool s !! i = Some (SendResult e k) ->
     exists s', step s (Ev (Task i) (ASendResult e)) s') /\
  (forall i err k, st_exit s = None -> st_pool s !! i = Some (SendErr err k) ->
     exists s', step s (Ev (Task i) (ASendErr err)) s').
Proof.
  intros H. destruct (RaceFacts.channel_facts _ _ _ _ H) as (R & E & P).
  split; [|split; [|split]].
  - intros c Hc. destruct (R c Hc) as (-> & _ & ?). auto.
  - intros c Hc. destruct (E c Hc) as (-> & _ & ?). auto.
  - intros i e k Hex Hp.
    destruct (RaceFacts.send_enabled _ _ _ _ i _ H Hex Hp) as [S _]. eauto.
  - intros i err k Hex Hp.
    destruct (RaceFacts.send_enabled _ _ _ _ i _ H Hex Hp) as [_ S]. eauto.
Qed.

Lemma send_never_blocks_witness :
  exec (init Copy1.main) (run_timeout_late)
    (Points.after Copy1.cep Copy1.timeout run_timeout_late)
  /\ exists s', step (Points.after Copy1.cep Copy1.timeout run_timeout_late)
                  (Ev (Task 0) (ASendResult sample_brasil)) s'.
Proof.
  assert (R : exec (init Copy1.main) run_timeout_late
                (Points.after Copy1.cep Copy1.timeout run_timeout_late)).
  { apply RaceSteps.main_exec. simpl. unfold Points.enabled. simpl.
    repeat split; try reflexivity; try discriminate; try lia.
    exists world_ok. split; reflexivity. }
  split; [exact R|].
  exact (proj1 (proj2 (proj2 (send_never_blocks _ _ R))) 0 sample_brasil Return
           eq_refl eq_refl).
Defined.

Lemma run_unsent_exec :
  exec (init Copy1.main) run_unsent (Points.after Copy1.cep Copy1.timeout run_unsent).
Proof.
  apply RaceSteps.main_exec. simpl. unfold Points.enabled. simpl.
  repeat split; try reflexivity; try discriminate; try lia.
  exists world_ok. split; reflexivity.
Qed.

Lemma exited_is_stuck s ev s' : st_exit s <> None -> ~ step s ev s'.
Proof. intros Hex Hst. inversion Hst; subst; congruence. Qed.

(** C9, as the code has it.  Each of the two goroutines does nothing before
    its fetcher returns, then sends one report: the [Endereco] on
    [resultChan] when the error is nil, the error on [errChan] otherwise;
    it never sends twice or on both channels.  A goroutine that has ended
    has sent its report.  A goroutine whose fetcher has returned can send
    at once as long as the process runs; when [main] returns first the
    process ends and the report is never sent.  No channel is ever
    closed. *)
Theorem task_reports_once (tr : list event) (s : state) (i : nat) (t : io fetched) :
  exec (init Copy1.main) tr s ->
  (i = 0 /\ t = Copy1.buscaBrasilAPI (Derived Background) Copy1.cep) \/
  (i = 1 /\ t = Copy1.buscaViaCEP (Derived Background) Copy1.cep) ->
  (acts_of (Task i) tr = [] \/
   exists w,
     acts_of (Task i) tr = [ACall (requested w t) (interp w t)] \/
     acts_of (Task i) tr =
       [ACall (requested w t) (interp w t);
        match snd (interp w t) with
        | Some err => ASendErr err
        | None => ASendResult (fst (interp w t))
        end]) /\
  (st_pool s !! i = Some Return ->
   exists w,
     acts_of (Task i) tr =
       [ACall (requested w t) (interp w t);
        match snd (interp w t) with
        | Some err => ASendErr err
        | None => ASendResult (fst (interp w t))
        end]) /\
  (forall urls r, acts_of (Task i) tr = [ACall urls r] -> st_exit s = None ->
     exists s',
       step s (Ev (Task i) (match snd r with
                            | Some err => ASendErr err
                            | None => ASendResult (fst r)
                            end)) s') /\
  (forall c, sh_resultChan (st_shared s) = Some c -> closed c = false) /\
  (forall c, sh_errChan (st_shared s) = Some c -> closed c = false).
Proof.
  intros H Hi.
  destruct (RaceFacts.task_history _ _ _ _ H)
    as (q1 & q2 & A1 & A2 & O1 & O2 & P1 & P2 & _).
  destruct (RaceFacts.channel_facts _ _ _ _ H) as (R & E & _).
  assert (Hq : exists q start,
             acts_of (Task i) tr = Points.task_acts q /\ Points.task_ok t q /\
             (forall p, st_pool s !! i = Some p -> p = Points.task_code start q) /\
             start <> Return).
  { destruct Hi as [[-> ->]|[-> ->]].
    - exists q1, (Copy1.goBrasilAPI Points.ctx Copy1.cep).
      repeat split; auto; discriminate.
    - exists q2, (Copy1.goViaCEP Points.ctx Copy1.cep).
      repeat split; auto; discriminate. }
  destruct Hq as (q & start & A & O & P & Hstart).
  rewrite A. split; [|split; [|split; [|split]]].
  - destruct q as [|u r|u r]; simpl in *.
    + left. reflexivity.
    + right. destruct O as (w & -> & ->). exists w. left. reflexivity.
    + right. destruct O as (w & -> & ->). exists w. right. reflexivity.
  - intros Hp. apply P in Hp.
    destruct q as [|u r|u r]; simpl in *.
    + congruence.
    + unfold Points.send_code in Hp. destruct (snd r); discriminate.
    + destruct O as (w & -> & ->). exists w. reflexivity.
  - intros urls r Hr Hex.
    destruct q as [|u r'|u r']; simpl in Hr; try discriminate.
    injection Hr as -> ->.
    assert (Hl : exists p, st_pool s !! i = Some p).
    { destruct (PointsFacts.exec_inv _ _ _ _ H) as (a & -> & G).
      pose proof (Points.good_unspawned1 _ _ _ _ G) as U1.
      pose proof (Points.good_unspawned2 _ _ _ _ G) as U2.
      pose proof (Points.good_task1 _ _ _ _ G) as T1.
      pose proof (Points.good_task2 _ _ _ _ G) as T2.
      destruct a as [pc a1 a2 c rs es]. simpl in *.
      destruct Hi as [[-> _]|[-> _]].
      - destruct (decide (Points.spawned pc < 1)) as [Hlt|Hge].
        + rewrite (U1 Hlt) in T1. rewrite T1 in A. discriminate.
        + eexists. apply lookup_take_Some. split; [reflexivity | lia].
      - destruct (decide (Points.spawned pc < 2)) as [Hlt|Hge].
        + rewrite (U2 Hlt) in T2. rewrite T2 in A. discriminate.
        + eexists. apply lookup_take_Some. split; [reflexivity | lia]. }
    destruct Hl as [p Hp]. pose proof (P p Hp) as ->. simpl in Hp.
    destruct (RaceFacts.send_enabled _ _ _ _ i _ H Hex Hp) as [S1 S2].
    unfold Points.send_code in *. destruct (snd r) as [err|]; eauto.
  - intros c Hc. apply (R c Hc).
  - intros c Hc. apply (E c Hc).
Qed.

Lemma task_reports_once_witness :
  exec (init Copy1.main) run_success
    (Points.after Copy1.cep Copy1.timeout run_success)
  /\ exists w,
       acts_of (Task 0) run_success =
       [ACall (requested w (Copy1.buscaBrasilAPI (Derived Background) Copy1.cep))
          (interp w (Copy1.buscaBrasilAPI (Derived Background) Copy1.cep));
        match snd (interp w (Copy1.buscaBrasilAPI (Derived Background) Copy1.cep)) with
        | Some err => ASendErr err
        | None =>
            ASendResult
              (fst (interp w (Copy1.buscaBrasilAPI (Derived Background) Copy1.cep)))
        end].
Proof.
  split; [exact run_success_exec|].
  refine (proj1 (proj2 (task_reports_once run_success _ 0 _ run_success_exec
                          (or_introl (conj eq_refl eq_refl)))) _).
  reflexivity.
Defined.

(** C9 fails as stated: BrasilAPI's fetcher returns an answer with a nil
    error after [main] has taken the timeout case; [main] returns, the
    process ends, and the goroutine has sent nothing. *)
Lemma report_unsent_at_exit :
  exists s,
    exec (init Copy1.main) run_unsent s /\
    acts_of (Task 0) run_unsent =
      [ACall [brasil_url Copy1.cep] (sample_brasil, None)] /\
    interp world_ok (Copy1.buscaBrasilAPI (Derived Background) Copy1.cep)
      = (sample_brasil, None) /\
    st_exit s = Some 0%Z /\
    (forall ev s', ~ step s ev s').
Proof.
  exists (Points.after Copy1.cep Copy1.timeout run_unsent).
  split; [exact run_unsent_exec|]. repeat split.
  intros ev s'. apply exited_is_stuck. discriminate.
Qed.




(** * Further properties of the code *)

(** ** Order of the reports and cancellation *)

Lemma sent_results_snoc tr ev :
  sent_results (tr ++ [ev]) =
  sent_results tr ++ match ev with
                     | Ev (Task _) (ASendResult e) => [e]
                     | _ => []
                     end.
Proof.
  unfold sent_results. rewrite omap_app. f_equal.
  destruct ev as [[|i] []|]; reflexivity.
Qed.

Lemma sent_errs_snoc tr ev :
  sent_errs (tr ++ [ev]) =
  sent_errs tr ++ match ev with
                  | Ev (Task _) (ASendErr err) => [err]
                  | _ => []
                  end.
Proof.
  unfold sent_errs. rewrite omap_app. f_equal.
  destruct ev as [[|i] []|]; reflexivity.
Qed.

Module OrderFacts.
Import Copy1 Points Order.

Section Program.
Variable cep : string.
Variable d : Z.

#[local] Arguments interp : simpl never.
#[local] Arguments requested : simpl never.
#[local] Arguments buscaBrasilAPI : simpl never.
#[local] Arguments buscaViaCEP : simpl never.
#[local] Arguments Println : simpl never.
#[local] Arguments Printf : simpl never.

(** A step from the image of an abstract state is an enabled event. *)
Lemma step_enabled a ev s' :
  (spawned (a_pc a) < 1 -> a_q1 a = tCall) ->
  (spawned (a_pc a) < 2 -> a_q2 a = tCall) ->
  step (conc cep d a) ev s' -> enabled cep d a ev.
Proof.
  destruct a as [pc q1 q2 c rs es]. simpl. intros U1 U2 Hst.
  inversion Hst; subst; simpl in *.
  - destruct pc; simpl in *; inversion H0; subst; simplify_eq/=.
    all: split; [reflexivity|]; unfold main_enabled; simpl; auto.
  - destruct pc; simpl in *; try discriminate.
    all: destruct i as [|[|i]]; simpl in *; try discriminate.
    all: simplify_eq.
    all: match type of H1 with
         | gstep _ (task_code _ ?q) _ _ _ =>
             destruct q as [|? r|? r]; simpl in *;
             [| destruct r as [? [?|]]; simpl in * |]
         end;
         inversion H1; subst; simplify_eq/=.
    all: split; [reflexivity|]; simpl; (split; [lia|]); simpl; eauto.
  - destruct pc; simpl in *; try discriminate; simplify_eq.
    all: split; [reflexivity|]; unfold main_enabled; simpl; split; auto; lia.
  - destruct pc; simpl in *; try discriminate; simplify_eq.
    split; [reflexivity|]. exact I.
  - destruct pc; simpl in *; try discriminate; simplify_eq.
    all: split; [reflexivity|]; reflexivity.
  - destruct pc; simpl in *; try discriminate; simplify_eq.
    all: split; [reflexivity|]; split; reflexivity.
Qed.

Ltac more_fields :=
  constructor; simpl in *;
  rewrite ?sent_results_snoc, ?sent_errs_snoc; simpl;
  rewrite ?app_nil_r;
  try assumption; try congruence; try discriminate;
  try (destruct (d <=? 0)%Z; discriminate);
  try match goal with
      | c : ctx_status |- _ => destruct c; simpl in *; congruence
      end;
  try (rewrite app_assoc; congruence).

(** The facts of [More] are kept by every enabled event. *)
Lemma more_step a tr ev :
  More a tr -> enabled cep d a ev -> More (anext d a ev) (tr ++ [ev]).
Proof.
  destruct a as [pc q1 q2 c rs es]. intros [C NR NE R E] [Hex H].
  destruct ev as [[|i] x|]; simpl in *.
  - unfold main_enabled in H; simpl in H.
    destruct pc; try discriminate; destruct x; try contradiction; simpl in *.
    all: try match goal with br : branch |- _ => destruct br end.
    all: try match type of H with
             | head ?l = Some _ => destruct l; simplify_eq/=
             end.
    all: try (rewrite NR in * by reflexivity).
    all: try (rewrite NE in * by reflexivity).
    all: more_fields.
  - destruct i as [|[|i]]; try contradiction; destruct H as [Hsp H].
    + destruct q1 as [|u r|u r]; simpl in H; try contradiction.
      * destruct x; try contradiction. more_fields.
      * destruct H as [-> H]. destruct r as [e [err|]]; simpl in *.
        all: more_fields.
        all: intros Hn; destruct pc; simpl in *; (discriminate || lia).
    + destruct q2 as [|u r|u r]; simpl in H; try contradiction.
      * destruct x; try contradiction. more_fields.
      * destruct H as [-> H]. destruct r as [e [err|]]; simpl in *.
        all: more_fields.
        all: intros Hn; destruct pc; simpl in *; (discriminate || lia).
  - destruct H as [Hc ->]. more_fields.
    destruct pc as [| | | | | | | | | | | | |br|br]; simpl in *;
      try destruct br; congruence.
Qed.

Lemma more_init : More a0 [].
Proof. constructor; simpl; auto. Qed.

(** Every execution of [main_with cep d] keeps both invariants. *)
Lemma exec_more tr s :
  exec (init (main_with cep d)) tr s ->
  exists a, s = conc cep d a /\ Good cep d a tr /\ More a tr.
Proof.
  induction 1 as [|tr s ev s' Hex (a & -> & G & M) Hst].
  - exists a0. split; [reflexivity|]. split; [apply PointsFacts.init_good | apply more_init].
  - exists (anext d a ev). split; [|split].
    + apply PointsFacts.step_conc; [apply G | apply G | exact Hst].
    + eapply PointsFacts.step_good; eassumption.
    + apply more_step; [exact M|].
      eapply step_enabled; [apply G | apply G | exact Hst].
Qed.

End Program.
End OrderFacts.

(** The first report sent on a channel is the one [main] receives from it:
    when the outcome is a result, it is the first [Endereco] that was sent
    on [resultChan]; when it is an error, it is the first error that was
    sent on [errChan]. *)
Theorem first_report_wins (tr : list event) (s : state) :
  exec (init Copy1.main) tr s ->
  (forall e, BrResult e ∈ outcomes tr -> exists rest, sent_results tr = e :: rest) /\
  (forall err, BrErr err ∈ outcomes tr -> exists rest, sent_errs tr = err :: rest).
Proof.
  intros H. destruct (OrderFacts.exec_more _ _ _ _ H) as (a & -> & G & M).
  rewrite (RaceFacts.outcomes_chosen _ _ a tr G).
  destruct M as [_ _ _ R E]. unfold Order.taken_results, Order.taken_errs in *.
  split.
  - intros e He. destruct (Points.chosen (Points.a_pc a)) as [br|];
      [|apply elem_of_nil in He; destruct He].
    apply list_elem_of_singleton in He as <-. simpl in R. eauto.
  - intros err He. destruct (Points.chosen (Points.a_pc a)) as [br|];
      [|apply elem_of_nil in He; destruct He].
    apply list_elem_of_singleton in He as <-. simpl in E. eauto.
Qed.

Lemma first_report_wins_witness :
  exec (init Copy1.main) run_success
    (Points.after Copy1.cep Copy1.timeout run_success)
  /\ exists rest, sent_results run_success = sample_brasil :: rest.
Proof.
  split; [exact run_success_exec|].
  refine (proj1 (first_report_wins run_success _ run_success_exec) sample_brasil _).
  apply list_elem_of_singleton. reflexivity.
Defined.

(** A result [main] reports was fetched and sent in the same execution:
    one of the two goroutines has done exactly two things, the call of its
    fetcher for the URL of [main]'s CEP, which returned that [Endereco]
    with a nil error, and the send of that [Endereco]; its [Fonte] is
    ["BrasilAPI"] for the first goroutine and ["ViaCEP"] for the second. *)
Theorem result_comes_from_a_fetcher (tr : list event) (s : state) (e : Endereco) :
  exec (init Copy1.main) tr s ->
  BrResult e ∈ outcomes tr ->
  (acts_of (Task 0) tr =
     [ACall [brasil_url Copy1.cep] (e, None); ASendResult e] /\
   Fonte e = "BrasilAPI" /\
   exists w,
     interp w (Copy1.buscaBrasilAPI (Derived Background) Copy1.cep) = (e, None)) \/
  (acts_of (Task 1) tr =
     [ACall [via_url Copy1.cep] (e, None); ASendResult e] /\
   Fonte e = "ViaCEP" /\
   exists w,
     interp w (Copy1.buscaViaCEP (Derived Background) Copy1.cep) = (e, None)).
Proof.
  intros H He.
  destruct (RaceFacts.task_history _ _ _ _ H)
    as (q1 & q2 & A1 & A2 & O1 & O2 & _ & _ & Hout).
  apply Hout in He. simpl in He.
  destruct He as [[u ->]|[u ->]].
  - left. destruct O1 as (w & -> & Hr). symmetry in Hr.
    rewrite A1, requested_brasil.
    split; [reflexivity|]. split; [|exists w; exact Hr].
    pose proof (buscaBrasilAPI_cases w (Derived Background) Copy1.cep) as C.
    change Points.ctx with (Derived Background) in Hr.
    destruct (w_NewRequestWithContext w _ _ _) as [req|?]; [|congruence].
    destruct (w_Do w req) as [resp|?]; [|congruence].
    destruct (StatusCode resp =? StatusOK)%Z; [|congruence].
    destruct (w_DecodeBrasil w _ _) as [data [?|]]; [congruence|].
    rewrite C in Hr. injection Hr as <-. reflexivity.
  - right. destruct O2 as (w & -> & Hr). symmetry in Hr.
    rewrite A2, requested_via.
    split; [reflexivity|]. split; [|exists w; exact Hr].
    pose proof (buscaViaCEP_cases w (Derived Background) Copy1.cep) as C.
    change Points.ctx with (Derived Background) in Hr.
    destruct (w_NewRequestWithContext w _ _ _) as [req|?]; [|congruence].
    destruct (w_Do w req) as [resp|?]; [|congruence].
    destruct (StatusCode resp =? StatusOK)%Z; [|congruence].
    destruct (w_DecodeVia w _ _) as [data [?|]]; [congruence|].
    rewrite C in Hr. injection Hr as <-. reflexivity.
Qed.

Lemma result_comes_from_a_fetcher_witness :
  exec (init Copy1.main) run_success
    (Points.after Copy1.cep Copy1.timeout run_success)
  /\ ((acts_of (Task 0) run_success =
         [ACall [brasil_url Copy1.cep] (sample_brasil, None);
          ASendResult sample_brasil] /\
       Fonte sample_brasil = "BrasilAPI" /\
       exists w,
         interp w (Copy1.buscaBrasilAPI (Derived Background) Copy1.cep)
         = (sample_brasil, None)) \/
      (acts_of (Task 1) run_success =
         [ACall [via_url Copy1.cep] (sample_brasil, None);
          ASendResult sample_brasil] /\
       Fonte sample_brasil = "ViaCEP" /\
       exists w,
         interp w (Copy1.buscaViaCEP (Derived Background) Copy1.cep)
         = (sample_brasil, None))).
Proof.
  split; [exact run_success_exec|].
  refine (result_comes_from_a_fetcher run_success _ sample_brasil run_success_exec _).
  apply list_elem_of_singleton. reflexivity.
Defined.

(** [cancel] is not called before the [select] has taken a case; the
    timeout case is taken, and the timeout logged, only on a context whose
    deadline has expired; whatever [main] logs is logged on a context that
    is done, and the context is done when the process exits. *)
Theorem cancel_discipline (tr : list event) (s : state) :
  exec (init Copy1.main) tr s ->
  (outcomes tr = [] -> sh_ctx (st_shared s) <> Some Canceled) /\
  (BrDone ∈ outcomes tr -> sh_ctx (st_shared s) = Some DeadlineExceeded) /\
  (sh_log (st_shared s) <> [] ->
   exists st, sh_ctx (st_shared s) = Some st /\ st <> Active) /\
  (st_exit s <> None ->
   exists st, sh_ctx (st_shared s) = Some st /\ st <> Active).
Proof.
  intros H. destruct (OrderFacts.exec_more _ _ _ _ H) as (a & -> & G & M).
  rewrite (RaceFacts.outcomes_chosen _ _ a tr G).
  destruct M as [C _ _ _ _]. destruct a as [pc q1 q2 c rs es]. simpl in *.
  split; [|split; [|split]].
  - destruct pc; simpl in *; try discriminate; congruence.
  - intros Hb. destruct pc as [| | | | | | | | | | | | |br|br]; simpl in *;
      try (apply elem_of_nil in Hb; destruct Hb);
      apply list_elem_of_singleton in Hb; try discriminate;
      subst; simpl in *; congruence.
  - intros Hl. exists c.
    destruct pc as [| | | | | | | | | | | | |br|br]; simpl in *;
      try congruence;
      try match goal with b : branch |- _ => destruct b end;
      simpl in *; split; congruence.
  - intros Hx. exists c.
    destruct pc as [| | | | | | | | | | | | |br|br]; simpl in *;
      try congruence;
      try match goal with b : branch |- _ => destruct b end;
      simpl in *; split; congruence.
Qed.

Lemma cancel_discipline_witness :
  exec (init Copy1.main) run_success
    (Points.after Copy1.cep Copy1.timeout run_success)
  /\ exists st,
       sh_ctx (st_shared (Points.after Copy1.cep Copy1.timeout run_success)) = Some st
       /\ st <> Active.
Proof.
  split; [exact run_success_exec|].
  refine (proj2 (proj2 (proj2 (cancel_discipline run_success _ run_success_exec))) _).
  discriminate.
Defined.

(** ** The calls of the fetchers *)

Lemma calls_brasil w ctx cep :
  calls w (Copy1.buscaBrasilAPI ctx cep) =
  CNewRequest ctx MethodGet (brasil_url cep) ::
  match w_NewRequestWithContext w ctx MethodGet (brasil_url cep) with
  | inr _ => []
  | inl req =>
      CDo req ::
      match w_Do w req with
      | inr _ => []
      | inl resp =>
          if (StatusCode resp =? StatusOK)%Z
          then [CDecode (Body resp); CClose (Body resp)]
          else [CClose (Body resp)]
      end
  end.
Proof.
  unfold Copy1.buscaBrasilAPI. rewrite Sprintf_brasil_url. cbn [calls]. f_equal.
  destruct (w_NewRequestWithContext w ctx MethodGet (brasil_url cep)) as [req|err];
    [|reflexivity].
  cbn [calls]. f_equal. destruct (w_Do w req) as [resp|err]; [|reflexivity].
  destruct (StatusCode resp =? StatusOK)%Z; cbn [negb calls]; [|reflexivity].
  destruct (w_DecodeBrasil w (Body resp) Brasil.zero) as [data [err|]]; reflexivity.
Qed.

Lemma calls_via w ctx cep :
  calls w (Copy1.buscaViaCEP ctx cep) =
  CNewRequest ctx MethodGet (via_url cep) ::
  match w_NewRequestWithContext w ctx MethodGet (via_url cep) with
  | inr _ => []
  | inl req =>
      CDo req ::
      match w_Do w req with
      | inr _ => []
      | inl resp =>
          if (StatusCode resp =? StatusOK)%Z
          then [CDecode (Body resp); CClose (Body resp)]
          else [CClose (Body resp)]
      end
  end.
Proof.
  unfold Copy1.buscaViaCEP. rewrite Sprintf_via_url. cbn [calls]. f_equal.
  destruct (w_NewRequestWithContext w ctx MethodGet (via_url cep)) as [req|err];
    [|reflexivity].
  cbn [calls]. f_equal. destruct (w_Do w req) as [resp|err]; [|reflexivity].
  destruct (StatusCode resp =? StatusOK)%Z; cbn [negb calls]; [|reflexivity].
  destruct (w_DecodeVia w (Body resp) Via.zero) as [data [err|]]; reflexivity.
Qed.

(** Once the call has returned a response, each fetcher closes the body of
    that response, once and as its last call, whether the status is 200 or
    not and whether the payload is decoded or not; a fetcher that got no
    response closes nothing. *)
Theorem response_body_is_closed (w : world) (ctx : context) (cep : string) :
  (forall req resp,
     w_NewRequestWithContext w ctx MethodGet (brasil_url cep) = inl req ->
     w_Do w req = inl resp ->
     exists before,
       calls w (Copy1.buscaBrasilAPI ctx cep) = before ++ [CClose (Body resp)] /\
       forall b, CClose b ∉ before) /\
  (forall b, CClose b ∈ calls w (Copy1.buscaBrasilAPI ctx cep) ->
     exists req resp,
       w_NewRequestWithContext w ctx MethodGet (brasil_url cep) = inl req /\
       w_Do w req = inl resp /\ b = Body resp) /\
  (forall req resp,
     w_NewRequestWithContext w ctx MethodGet (via_url cep) = inl req ->
     w_Do w req = inl resp ->
     exists before,
       calls w (Copy1.buscaViaCEP ctx cep) = before ++ [CClose (Body resp)] /\
       forall b, CClose b ∉ before) /\
  (forall b, CClose b ∈ calls w (Copy1.buscaViaCEP ctx cep) ->
     exists req resp,
       w_NewRequestWithContext w ctx MethodGet (via_url cep) = inl req /\
       w_Do w req = inl resp /\ b = Body resp).
Proof.
  rewrite calls_brasil, calls_via.
  split; [|split; [|split]].
  - intros req resp -> ->. destruct (StatusCode resp =? StatusOK)%Z.
    + exists [CNewRequest ctx MethodGet (brasil_url cep); CDo req; CDecode (Body resp)].
      split; [reflexivity|]. intros b Hb.
      repeat (apply elem_of_cons in Hb as [Hb|Hb]; [discriminate|]).
      now apply elem_of_nil in Hb.
    + exists [CNewRequest ctx MethodGet (brasil_url cep); CDo req].
      split; [reflexivity|]. intros b Hb.
      repeat (apply elem_of_cons in Hb as [Hb|Hb]; [discriminate|]).
      now apply elem_of_nil in Hb.
  - intros b Hb.
    destruct (w_NewRequestWithContext w ctx MethodGet (brasil_url cep)) as [req|?] eqn:E1.
    2: { repeat (apply elem_of_cons in Hb as [Hb|Hb]; [discriminate|]).
         now apply elem_of_nil in Hb. }
    destruct (w_Do w req) as [resp|?] eqn:E2.
    2: { repeat (apply elem_of_cons in Hb as [Hb|Hb]; [discriminate|]).
         now apply elem_of_nil in Hb. }
    exists req, resp. split; [reflexivity|]. split; [exact E2|].
    destruct (StatusCode resp =? StatusOK)%Z;
      repeat (apply elem_of_cons in Hb as [Hb|Hb]; [congruence|]);
      now apply elem_of_nil in Hb.
  - intros req resp -> ->. destruct (StatusCode resp =? StatusOK)%Z.
    + exists [CNewRequest ctx MethodGet (via_url cep); CDo req; CDecode (Body resp)].
      split; [reflexivity|]. intros b Hb.
      repeat (apply elem_of_cons in Hb as [Hb|Hb]; [discriminate|]).
      now apply elem_of_nil in Hb.
    + exists [CNewRequest ctx MethodGet (via_url cep); CDo req].
      split; [reflexivity|]. intros b Hb.
      repeat (apply elem_of_cons in Hb as [Hb|Hb]; [discriminate|]).
      now apply elem_of_nil in Hb.
  - intros b Hb.
    destruct (w_NewRequestWithContext w ctx MethodGet (via_url cep)) as [req|?] eqn:E1.
    2: { repeat (apply elem_of_cons in Hb as [Hb|Hb]; [discriminate|]).
         now apply elem_of_nil in Hb. }
    destruct (w_Do w req) as [resp|?] eqn:E2.
    2: { repeat (apply elem_of_cons in Hb as [Hb|Hb]; [discriminate|]).
         now apply elem_of_nil in Hb. }
    exists req, resp. split; [reflexivity|]. split; [exact E2|].
    destruct (StatusCode resp =? StatusOK)%Z;
      repeat (apply elem_of_cons in Hb as [Hb|Hb]; [congruence|]);
      now apply elem_of_nil in Hb.
Qed.

Lemma response_body_is_closed_witness :
  exists before,
    calls world_404 (Copy1.buscaBrasilAPI Background "06341650")
    = before ++ [CClose ""] /\
    forall b, CClose b ∉ before.
Proof.
  exact (proj1 (response_body_is_closed world_404 Background "06341650")
           (mkRequest MethodGet (brasil_url "06341650") Background)
           (mkResponse 404 "") eq_refl eq_refl).
Defined.

Ltac split_answers :=
  match goal with
  | |- context [w_NewRequestWithContext ?w ?c ?m ?u] =>
      destruct (w_NewRequestWithContext w c m u) as [req|e1] eqn:E1;
      [ destruct (w_Do w req) as [resp|e2] eqn:E2;
        [ destruct (StatusCode resp =? StatusOK)%Z eqn:E3;
          [apply Z.eqb_eq in E3 | apply Z.eqb_neq in E3] |] |]
  end.

Ltac members :=
  intros;
  repeat match goal with
         | H : _ ∈ _ :: _ |- _ => apply elem_of_cons in H as [H|H]
         | H : _ ∈ [] |- _ => apply elem_of_nil in H; destruct H
         end;
  simplify_eq; eauto 10.

(** Each fetcher asks for one request, a GET of its URL under the context
    it was given, and for nothing else when the request cannot be made; it
    calls the client at most once (there is no second attempt), with the
    request it was given; and it decodes a payload only when the call
    returned a response whose status is 200. *)
Theorem fetch_calls_in_order (w : world) (ctx : context) (cep : string) :
  (exists rest,
     calls w (Copy1.buscaBrasilAPI ctx cep)
     = CNewRequest ctx MethodGet (brasil_url cep) :: rest /\
     (forall c m u, CNewRequest c m u ∉ rest) /\
     (forall err, w_NewRequestWithContext w ctx MethodGet (brasil_url cep) = inr err ->
                  rest = []) /\
     (forall r, CDo r ∈ rest ->
        w_NewRequestWithContext w ctx MethodGet (brasil_url cep) = inl r) /\
     length (dos rest) <= 1 /\
     (forall b, CDecode b ∈ rest ->
        exists req resp,
          w_NewRequestWithContext w ctx MethodGet (brasil_url cep) = inl req /\
          w_Do w req = inl resp /\ StatusCode resp = StatusOK /\ b = Body resp)) /\
  (exists rest,
     calls w (Copy1.buscaViaCEP ctx cep)
     = CNewRequest ctx MethodGet (via_url cep) :: rest /\
     (forall c m u, CNewRequest c m u ∉ rest) /\
     (forall err, w_NewRequestWithContext w ctx MethodGet (via_url cep) = inr err ->
                  rest = []) /\
     (forall r, CDo r ∈ rest ->
        w_NewRequestWithContext w ctx MethodGet (via_url cep) = inl r) /\
     length (dos rest) <= 1 /\
     (forall b, CDecode b ∈ rest ->
        exists req resp,
          w_NewRequestWithContext w ctx MethodGet (via_url cep) = inl req /\
          w_Do w req = inl resp /\ StatusCode resp = StatusOK /\ b = Body resp)).
Proof.
  rewrite calls_brasil, calls_via.
  split; (eexists; split; [reflexivity|]); split_answers.
  all: repeat split; try (simpl; lia); try (intros ? ? ? ?); members.
Qed.

(** ** What is logged *)

Lemma append_nonempty (a b : string) : b <> "" -> a +:+ b <> "".
Proof. destruct a; [trivial | discriminate]. Qed.

Lemma ends_in_nl_append (a b : string) :
  b <> "" -> ends_in_nl (a +:+ b) = ends_in_nl b.
Proof.
  intros Hb. induction a as [|c a IH]; [reflexivity|].
  change (String c a +:+ b) with (String c (a +:+ b)).
  pose proof (append_nonempty a b Hb) as Hn.
  destruct (a +:+ b) eqn:E; [contradiction|]. exact IH.
Qed.

Ltac nonempty := repeat apply append_nonempty; discriminate.

Lemma header_text (e : Endereco) :
  Copy1.header e = "Resultado recebido da " +:+ Fonte e +:+ ":" +:+ nl.
Proof.
  unfold Copy1.header, Printf.
  change (Sprintf ("Resultado recebido da %s:" +:+ nl) [AStr (Fonte e)])
    with ("Resultado recebido da " +:+ Fonte e +:+ ":" +:+ nl).
  rewrite !ends_in_nl_append by nonempty. reflexivity.
Qed.

Lemma fields_text (e : Endereco) :
  Copy1.fields e =
  "CEP: " +:+ CEP e +:+ nl +:+ "Logradouro: " +:+ Logradouro e +:+ nl +:+
  "Bairro: " +:+ Bairro e +:+ nl +:+ "Cidade: " +:+ Cidade e +:+ nl +:+
  "UF: " +:+ UF e +:+ nl.
Proof.
  unfold Copy1.fields, Printf.
  change (Sprintf _ _)
    with ("CEP: " +:+ CEP e +:+ nl +:+ "Logradouro: " +:+ Logradouro e +:+ nl +:+
          "Bairro: " +:+ Bairro e +:+ nl +:+ "Cidade: " +:+ Cidade e +:+ nl +:+
          "UF: " +:+ UF e +:+ nl).
  rewrite !ends_in_nl_append by nonempty. reflexivity.
Qed.

Lemma failure_text (err : error) :
  Copy1.failure err = "Erro ao consultar: " +:+ Error err +:+ nl.
Proof.
  unfold Copy1.failure, Printf.
  change (Sprintf _ _) with ("Erro ao consultar: " +:+ Error err +:+ nl).
  rewrite !ends_in_nl_append by nonempty. reflexivity.
Qed.

(** When the race ends in a result, the log is two entries: the name of the
    source, then the five fields of the [Endereco] in the order CEP,
    Logradouro, Bairro, Cidade, UF, one per line, each as the provider
    gave it. *)
Theorem success_is_logged_in_full (tr : list event) (s : state) (e : Endereco) :
  exec (init Copy1.main) tr s ->
  st_exit s <> None ->
  BrResult e ∈ outcomes tr ->
  sh_log (st_shared s) =
  ["Resultado recebido da " +:+ Fonte e +:+ ":" +:+ nl;
   "CEP: " +:+ CEP e +:+ nl +:+ "Logradouro: " +:+ Logradouro e +:+ nl +:+
   "Bairro: " +:+ Bairro e +:+ nl +:+ "Cidade: " +:+ Cidade e +:+ nl +:+
   "UF: " +:+ UF e +:+ nl].
Proof.
  intros H Hex He.
  destruct (RaceFacts.exited_outcome _ _ _ _ H Hex) as (_ & br & Hbr & ->).
  rewrite Hbr in He. apply list_elem_of_singleton in He as <-.
  unfold Points.branch_log. now rewrite header_text, fields_text.
Qed.

Lemma success_is_logged_in_full_witness :
  sh_log (st_shared (Points.after Copy1.cep Copy1.timeout run_success)) =
  ["Resultado recebido da " +:+ "BrasilAPI" +:+ ":" +:+ nl;
   "CEP: " +:+ "06341-650" +:+ nl +:+ "Logradouro: " +:+ "Rua Joao Marcos" +:+ nl +:+
   "Bairro: " +:+ "Vila Flora" +:+ nl +:+ "Cidade: " +:+ "Barueri" +:+ nl +:+
   "UF: " +:+ "SP" +:+ nl].
Proof.
  refine (success_is_logged_in_full run_success _ sample_brasil run_success_exec _ _).
  - discriminate.
  - apply list_elem_of_singleton. reflexivity.
Defined.

(** When the race ends in an error, the log is the one entry
    [Erro ao consultar: ] followed by the text of the error; when it ends
    in the timeout, the one entry of the timeout message. *)
Theorem failure_and_timeout_are_logged (tr : list event) (s : state) :
  exec (init Copy1.main) tr s ->
  st_exit s <> None ->
  (forall err, BrErr err ∈ outcomes tr ->
     sh_log (st_shared s) = ["Erro ao consultar: " +:+ Error err +:+ nl]) /\
  (BrDone ∈ outcomes tr ->
     sh_log (st_shared s) =
     ["Timeout: Nenhuma resposta recebida em 1 segundo." +:+ nl]).
Proof.
  intros H Hex.
  destruct (RaceFacts.exited_outcome _ _ _ _ H Hex) as (_ & br & Hbr & ->).
  rewrite Hbr. split.
  - intros err He. apply list_elem_of_singleton in He as <-.
    unfold Points.branch_log. now rewrite failure_text.
  - intros He. apply list_elem_of_singleton in He as <-. reflexivity.
Qed.

Lemma failure_and_timeout_are_logged_witness :
  sh_log (st_shared (Points.after Copy1.cep Copy1.timeout run_failure)) =
  ["Erro ao consultar: " +:+ "ViaCEP retornou status 404" +:+ nl].
Proof.
  refine (proj1 (failure_and_timeout_are_logged run_failure _ run_failure_exec _)
            via_404 _).
  - discriminate.
  - apply list_elem_of_singleton. reflexivity.
Defined.

(** A response whose status is not 200 makes the fetcher return the zero
    [Endereco] and an error whose text is the name of the provider,
    [ retornou status ] and the status code in decimal. *)
Theorem status_error_names_provider_and_code (w : world) (ctx : context)
    (cep : string) (req : Request) (resp : Response) :
  w_Do w req = inl resp ->
  StatusCode resp <> StatusOK ->
  (w_NewRequestWithContext w ctx MethodGet (brasil_url cep) = inl req ->
   interp w (Copy1.buscaBrasilAPI ctx cep) =
   (Endereco_zero,
    Some (New ("BrasilAPI retornou status " +:+ pretty (StatusCode resp))))) /\
  (w_NewRequestWithContext w ctx MethodGet (via_url cep) = inl req ->
   interp w (Copy1.buscaViaCEP ctx cep) =
   (Endereco_zero,
    Some (New ("ViaCEP retornou status " +:+ pretty (StatusCode resp))))).
Proof.
  intros Hdo Hst. apply Z.eqb_neq in Hst. split; intros Hnew.
  - pose proof (buscaBrasilAPI_cases w ctx cep) as C.
    rewrite Hnew, Hdo, Hst in C. rewrite C. unfold Errorf.
    change (Sprintf "BrasilAPI retornou status %d" [AInt (StatusCode resp)])
      with ("BrasilAPI retornou status " +:+ (pretty (StatusCode resp) +:+ "")).
    now rewrite append_empty_r.
  - pose proof (buscaViaCEP_cases w ctx cep) as C.
    rewrite Hnew, Hdo, Hst in C. rewrite C. unfold Errorf.
    change (Sprintf "ViaCEP retornou status %d" [AInt (StatusCode resp)])
      with ("ViaCEP retornou status " +:+ (pretty (StatusCode resp) +:+ "")).
    now rewrite append_empty_r.
Qed.

Lemma status_error_names_provider_and_code_witness :
  interp world_404 (Copy1.buscaViaCEP Background "06341650") =
  (Endereco_zero, Some (New ("ViaCEP retornou status " +:+ pretty 404%Z))).
Proof.
  refine (proj2 (status_error_names_provider_and_code world_404 Background "06341650"
                   (mkRequest MethodGet (via_url "06341650") Background)
                   (mkResponse 404 "") eq_refl _) eq_refl).
  discriminate.
Defined.
